(** * Dynamic plugin loader of the console: a shallow embedding

    Source: [frontend/packages/console-dynamic-plugin-sdk/src/runtime/plugin-loader.ts].

    The module keeps one process-wide [pluginMap], injects [<script>] elements
    whose [onload]/[onerror] handlers settle a promise, exposes the entry
    callback that plugin bundles invoke, and drives the activation pipeline
    [loadAndEnablePlugin].  Everything the TypeScript code mutates (the map,
    [document.head], the promises it creates, the console, the plugin store,
    the [onError] reporter) is gathered in one [World] record that is threaded
    through the functions below. *)

From Stdlib Require Import Ascii String List Bool Arith Lia.
From stdpp Require Import base option list.
Import ListNotations.

Local Open Scope list_scope.
Local Open Scope string_scope.

(** ** Data *)

(** An extension declaration of a manifest (its code references are still
    encoded) or, after resolution, of the store. *)
Record Extension := mkExtension {
  ext_type : string;
  ext_properties : string;
}.

(** [ConsolePluginManifestJSON]: the fields the loader reads. *)
Record ConsolePluginManifestJSON := mkManifest {
  name : string;
  version : string;
  extensions : list Extension;
}.

(** [RemoteEntryModule]: the container object a plugin bundle hands over.  The
    loader never looks inside, it only passes it on. *)
Record RemoteEntryModule := mkEntryModule {
  module_label : string;
}.

(** Values that are thrown or used to reject a promise. *)
Inductive ErrorValue :=
| Error (message : string)
| ErrorWithCause (message : string) (cause : string)
| TypeError (message : string).

(** [type ConsolePluginData]. *)
Record ConsolePluginData := mkPluginData {
  manifest : ConsolePluginManifestJSON;
  entryCallbackFired : bool;
}.

(** A JavaScript [Map<string, V>]: keys in insertion order, no duplicates as
    long as it is only changed through [map_set]. *)
Definition JsMap (V : Type) := list (string * V).

Fixpoint map_get {V} (k : string) (m : JsMap V) : option V :=
  match m with
  | [] => None
  | (k', v) :: rest => if String.eqb k' k then Some v else map_get k rest
  end.

Definition map_has {V} (k : string) (m : JsMap V) : bool :=
  match map_get k m with Some _ => true | None => false end.

(** [Map.prototype.set]: an existing key keeps its position, a new key goes
    last. *)
Fixpoint map_set {V} (k : string) (v : V) (m : JsMap V) : JsMap V :=
  match m with
  | [] => [(k, v)]
  | (k', v') :: rest =>
      if String.eqb k' k then (k', v) :: rest else (k', v') :: map_set k v rest
  end.

Definition map_values {V} (m : JsMap V) : list V := map snd m.

Definition map_clear {V} (m : JsMap V) : JsMap V := [].

(** State of a promise created by [new Promise]. *)
Inductive PromiseState :=
| Pending
| Fulfilled (value : string)
| Rejected (reason : ErrorValue).

(** The [<script>] element built by [loadDynamicPlugin].  [onload_pluginID] and
    [settles] are what the two handler closures captured: the plugin
    identifier and the [resolve]/[reject] pair of the promise. *)
Record ScriptElement := mkScript {
  script_id : string;
  script_src : string;
  script_async : bool;
  onload_pluginID : string;
  settles : nat;
}.

(** Calls that leave the module: console output, plugin store methods, the
    two asynchronous helpers of the pipeline and the [onError] reporter. *)
Inductive Effect :=
| ConsoleInfo (message : string)
| ConsoleError (message : string) (detail : option ErrorValue)
| AddDynamicPlugin (pluginID : string) (m : ConsolePluginManifestJSON)
    (resolvedExtensions : list Extension)
| SetDynamicPluginEnabled (pluginID : string) (enabled : bool)
| GetAllowedDynamicPluginNames
| FetchPluginManifest (url : string)
| ResolvePluginDependencies (m : ConsolePluginManifestJSON)
    (releaseVersion : option string) (allowedNames : list string)
| OnError (errorMessage : string) (errorCause : ErrorValue).

Record World := mkWorld {
  pluginMap : JsMap ConsolePluginData;
  document_head : list ScriptElement;
  loadPluginEntry_bound : bool;
  promises : list PromiseState;
  effects : list Effect;
}.

Definition initial_world : World :=
  {| pluginMap := []; document_head := []; loadPluginEntry_bound := false;
     promises := []; effects := [] |}.

Definition with_pluginMap (f : JsMap ConsolePluginData -> JsMap ConsolePluginData)
    (w : World) : World :=
  {| pluginMap := f (pluginMap w); document_head := document_head w;
     loadPluginEntry_bound := loadPluginEntry_bound w;
     promises := promises w; effects := effects w |}.

Definition with_document_head (f : list ScriptElement -> list ScriptElement)
    (w : World) : World :=
  {| pluginMap := pluginMap w; document_head := f (document_head w);
     loadPluginEntry_bound := loadPluginEntry_bound w;
     promises := promises w; effects := effects w |}.

Definition with_loadPluginEntry (b : bool) (w : World) : World :=
  {| pluginMap := pluginMap w; document_head := document_head w;
     loadPluginEntry_bound := b;
     promises := promises w; effects := effects w |}.

Definition with_promises (f : list PromiseState -> list PromiseState)
    (w : World) : World :=
  {| pluginMap := pluginMap w; document_head := document_head w;
     loadPluginEntry_bound := loadPluginEntry_bound w;
     promises := f (promises w); effects := effects w |}.

(** Effects are kept in the order in which they happen. *)
Definition emit (e : Effect) (w : World) : World :=
  {| pluginMap := pluginMap w; document_head := document_head w;
     loadPluginEntry_bound := loadPluginEntry_bound w;
     promises := promises w; effects := (effects w ++ [e])%list |}.

Definition emit_many (es : list Effect) (w : World) : World :=
  {| pluginMap := pluginMap w; document_head := document_head w;
     loadPluginEntry_bound := loadPluginEntry_bound w;
     promises := promises w; effects := (effects w ++ es)%list |}.

(** ** Promises *)

(** [new Promise(...)]: the new promise is pending and gets the next handle. *)
Definition new_promise (w : World) : nat * World :=
  (length (promises w), with_promises (fun ps => (ps ++ [Pending])%list) w).

(** [resolve]/[reject]: only the first settlement of a promise counts. *)
Definition settle (p : nat) (s : PromiseState) (w : World) : World :=
  match promises w !! p with
  | Some Pending => with_promises (fun ps => <[p := s]> ps) w
  | _ => w
  end.

Definition promise_state (p : nat) (w : World) : option PromiseState :=
  promises w !! p.

(** ** A state-and-exception monad for synchronous code *)

Inductive Completion (A : Type) :=
| Normal (a : A)
| Throw (e : ErrorValue).
Arguments Normal {A} a.
Arguments Throw {A} e.

Definition Sync (A : Type) := World -> Completion A * World.

Definition ret {A} (a : A) : Sync A := fun w => (Normal a, w).

Definition throw {A} (e : ErrorValue) : Sync A := fun w => (Throw e, w).

Definition bind {A B} (c : Sync A) (k : A -> Sync B) : Sync B :=
  fun w =>
    match c w with
    | (Normal a, w') => k a w'
    | (Throw e, w') => (Throw e, w')
    end.

(** [try { c } catch (error) { h error }]. *)
Definition try_catch {A} (c : Sync A) (h : ErrorValue -> Sync A) : Sync A :=
  fun w =>
    match c w with
    | (Normal a, w') => (Normal a, w')
    | (Throw e, w') => h e w'
    end.

Definition perform (f : World -> World) : Sync unit := fun w => (Normal tt, f w).

Definition read {A} (f : World -> A) : Sync A := fun w => (Normal (f w), w).

Notation "'let*' x := c 'in' k" := (bind c (fun x => k))
  (at level 10, x name, c at level 100, k at level 200).
Notation "c ;;; k" := (bind c (fun _ => k))
  (at level 100, k at level 200, right associativity).

(** ** URLs *)

(** A [URL] object as far as the loader goes: what its serialisation has
    before the query (scheme, host, path), the query and the fragment, each
    absent or present, and whether the scheme is a special one (http, https
    and the like).  Strings stand for the UTF-8 bytes of the JavaScript
    strings. *)
Record URL := mkURL {
  url_before_query : string;
  url_query : option string;
  url_fragment : option string;
  url_special : bool;
}.

(** The URL parser drops ASCII tab and newline from its input. *)
Definition is_tab_or_newline (c : ascii) : bool :=
  let n := nat_of_ascii c in
  ((n =? 9) || (n =? 10) || (n =? 13))%nat.

(** The query percent-encode set: C0 controls, everything above [~], space,
    the double quote, [#], [<] and [>]; for a special scheme also the single
    quote. *)
Definition in_query_percent_encode_set (special : bool) (c : ascii) : bool :=
  let n := nat_of_ascii c in
  ((n <=? 32) || (126 <? n) || (n =? 34) || (n =? 35) || (n =? 60)
   || (n =? 62) || (special && (n =? 39)))%nat.

Definition hex_digit (n : nat) : ascii :=
  match n with
  | 0 => "0" | 1 => "1" | 2 => "2" | 3 => "3" | 4 => "4" | 5 => "5"
  | 6 => "6" | 7 => "7" | 8 => "8" | 9 => "9" | 10 => "A" | 11 => "B"
  | 12 => "C" | 13 => "D" | 14 => "E" | _ => "F"
  end%char.

Definition hex_value (c : ascii) : nat :=
  match c with
  | "0" => 0 | "1" => 1 | "2" => 2 | "3" => 3 | "4" => 4 | "5" => 5
  | "6" => 6 | "7" => 7 | "8" => 8 | "9" => 9 | "A" => 10 | "B" => 11
  | "C" => 12 | "D" => 13 | "E" => 14 | _ => 15
  end%char.

(** What the parser, entered in its query state, makes of an input: tab and
    newline are dropped, a byte of the percent-encode set becomes [%] and two
    upper-case hex digits, every other byte ([%] too) is kept. *)
Fixpoint percent_encode_query (special : bool) (input : string) : string :=
  match input with
  | EmptyString => EmptyString
  | String c rest =>
      if is_tab_or_newline c then percent_encode_query special rest
      else if in_query_percent_encode_set special c then
        String "%"%char
          (String (hex_digit (nat_of_ascii c / 16)%nat)
             (String (hex_digit (nat_of_ascii c mod 16)%nat)
                (percent_encode_query special rest)))
      else String c (percent_encode_query special rest)
  end.

Definition strip_leading_question (s : string) : string :=
  match s with
  | String "?"%char rest => rest
  | _ => s
  end.

(** The setter of [url.search] as the URL standard defines it: the empty
    string removes the query; otherwise one leading [?] is removed and the
    rest goes through the parser in its query state. *)
Definition set_search (s : string) (u : URL) : URL :=
  {| url_before_query := url_before_query u;
     url_query :=
       match s with
       | EmptyString => None
       | _ => Some (percent_encode_query (url_special u)
                      (strip_leading_question s))
       end;
     url_fragment := url_fragment u;
     url_special := url_special u |}.

Definition query_text (q : option string) : string :=
  match q with
  | Some query => String "?"%char query
  | None => EmptyString
  end.

Definition fragment_text (f : option string) : string :=
  match f with
  | Some fragment => String "#"%char fragment
  | None => EmptyString
  end.

(** [url.toString()], the serialisation of the URL. *)
Definition URL_toString (u : URL) : string :=
  url_before_query u ++ query_text (url_query u)
    ++ fragment_text (url_fragment u).

Fixpoint has_char (c : ascii) (s : string) : bool :=
  match s with
  | EmptyString => false
  | String c' rest => Ascii.eqb c' c || has_char c rest
  end.

(** A token that the URL carries as it is, up to the encoding of single
    bytes: it has no [%], no tab and no newline. *)
Fixpoint token_plain (s : string) : bool :=
  match s with
  | EmptyString => true
  | String c rest =>
      negb (Ascii.eqb c "%") && negb (is_tab_or_newline c) && token_plain rest
  end.

(** [window.SERVER_FLAGS]. *)
Record ServerFlags := mkServerFlags {
  basePath : string;
  releaseVersion : string;
}.

(** What the module imports from files that are not part of this development:
    [getPluginID] (./plugin-utils), [remoteEntryFile] (../constants), the URL
    parser behind [resolveURL] (../utils/url), [semver.valid], and the global
    [window.SERVER_FLAGS]. *)
Class Imports := {
  getPluginID : ConsolePluginManifestJSON -> string;
  remoteEntryFile : string;
  new_URL : string -> string -> URL;
  semver_valid : string -> option string;
  SERVER_FLAGS : ServerFlags;
}.

(** [PluginStore]: the three methods the loader calls.  Like every injected
    collaborator they are arbitrary synchronous code. *)
Record PluginStore := mkPluginStore {
  addDynamicPlugin :
    string -> ConsolePluginManifestJSON -> list Extension -> Sync unit;
  setDynamicPluginEnabled : string -> bool -> Sync unit;
  getAllowedDynamicPluginNames : Sync (list string);
}.

(** A store that only records the calls it receives. *)
Definition recordingStore (allowed : list string) : PluginStore :=
  {| addDynamicPlugin := fun pluginID m exts =>
       perform (emit (AddDynamicPlugin pluginID m exts));
     setDynamicPluginEnabled := fun pluginID enabled =>
       perform (emit (SetDynamicPluginEnabled pluginID enabled));
     getAllowedDynamicPluginNames := fun w =>
       (Normal allowed, emit GetAllowedDynamicPluginNames w) |}.

(** An [onError] reporter that only records its calls. *)
Definition recordingOnError (errorMessage : string) (errorCause : ErrorValue)
    : Sync unit :=
  perform (emit (OnError errorMessage errorCause)).

(** [_.noop], the default [onError]. *)
Definition noop (errorMessage : string) (errorCause : ErrorValue) : Sync unit :=
  ret tt.

Definition console_error (message : string) (detail : option ErrorValue)
    : Sync unit :=
  perform (emit (ConsoleError message detail)).

Section Loader.
Context `{Imports}.

(** Modelled from the spec: [resolveURL] of ../utils/url is not among the
    sources; it resolves [to] against [base], lets [processURL] edit the URL
    object and prints it.  The parser [new_URL] is taken to be total. *)
Definition resolveURL (base to : string) (processURL : URL -> URL) : string :=
  URL_toString (processURL (new_URL to base)).

Definition scriptIDPrefix : string := "console-plugin".

Definition getScriptElementID (m : ConsolePluginManifestJSON) : string :=
  scriptIDPrefix ++ "-" ++ name m.

(** [Array.from(pluginMap.values()).find((p) => p.manifest.name === manifest.name)]. *)
Definition find_existing (m : ConsolePluginManifestJSON)
    (pm : JsMap ConsolePluginData) : option ConsolePluginData :=
  List.find (fun p => String.eqb (name (manifest p)) (name m)) (map_values pm).

(** The executor of [loadDynamicPlugin], run synchronously by [new Promise].
    [p] is the promise being built; [randomChars] is what [getRandomChars()]
    returns on this call (it is only drawn when the duplicate check passes). *)
Definition loadDynamicPlugin_executor (p : nat) (baseURL : string)
    (m : ConsolePluginManifestJSON) (randomChars : string) (w : World) : World :=
  let pluginID := getPluginID m in
  match find_existing m (pluginMap w) with
  | Some existingPluginData =>
      let existingPluginID := getPluginID (manifest existingPluginData) in
      settle p (Rejected (Error ("Attempt to reload plugin " ++ existingPluginID
                                   ++ " with " ++ pluginID))) w
  | None =>
      let w1 := with_pluginMap
                  (map_set pluginID
                     {| manifest := m; entryCallbackFired := false |}) w in
      let scriptURL := resolveURL baseURL remoteEntryFile
                         (fun url => set_search ("?cacheBuster=" ++ randomChars) url) in
      let script := {| script_id := getScriptElementID m;
                       script_src := scriptURL;
                       script_async := true;
                       onload_pluginID := pluginID;
                       settles := p |} in
      let w2 := emit (ConsoleInfo ("Loading entry script for plugin " ++ pluginID)) w1 in
      with_document_head (fun head => (head ++ [script])%list) w2
  end.

Definition loadDynamicPlugin (baseURL : string) (m : ConsolePluginManifestJSON)
    (randomChars : string) (w : World) : nat * World :=
  let (p, w0) := new_promise w in
  (p, loadDynamicPlugin_executor p baseURL m randomChars w0).

(** [script.onload].  [pluginMap.get(pluginID).entryCallbackFired] on a missing
    record reads a property of [undefined], which throws. *)
Definition script_onload (script : ScriptElement) : Sync unit := fun w =>
  let pluginID := onload_pluginID script in
  match map_get pluginID (pluginMap w) with
  | None =>
      (Throw (TypeError "Cannot read properties of undefined (reading 'entryCallbackFired')"), w)
  | Some pluginData =>
      if entryCallbackFired pluginData
      then (Normal tt, settle (settles script) (Fulfilled pluginID) w)
      else (Normal tt,
            settle (settles script)
              (Rejected (Error ("Entry script for plugin " ++ pluginID
                                  ++ " loaded without callback"))) w)
  end.

(** [script.onerror]; [event] stands for the DOM event. *)
Definition script_onerror (script : ScriptElement) (event : string) : Sync unit :=
  perform (settle (settles script)
             (Rejected (ErrorWithCause
                          ("Error while loading plugin entry script from "
                             ++ script_src script) event))).

(** The types of [initSharedPluginModules] and [resolveEncodedCodeRefs]; the
    last argument of the resolver is its error callback. *)
Definition InitSharedPluginModules := RemoteEntryModule -> Sync unit.

Definition ResolveEncodedCodeRefs :=
  list Extension -> RemoteEntryModule -> string -> Sync unit ->
  Sync (list Extension).

(** [pluginData.entryCallbackFired = true]: the record is the object stored in
    the map, so the assignment shows in the map, at the record's place. *)
Definition mark_entryCallbackFired (pluginID : string)
    (pluginData : ConsolePluginData) : World -> World :=
  with_pluginMap
    (map_set pluginID
       {| manifest := manifest pluginData; entryCallbackFired := true |}).

Definition getPluginEntryCallback (pluginStore : PluginStore)
    (initSharedPluginModulesCallback : InitSharedPluginModules)
    (resolveEncodedCodeRefsCallback : ResolveEncodedCodeRefs)
    (pluginID : string) (entryModule : RemoteEntryModule) : Sync unit :=
  let* known := read (fun w => map_has pluginID (pluginMap w)) in
  if negb known then
    console_error ("Received callback for unknown plugin " ++ pluginID) None
  else
    let* found := read (fun w => map_get pluginID (pluginMap w)) in
    match found with
    | None =>
        throw (TypeError "Cannot read properties of undefined (reading 'entryCallbackFired')")
    | Some pluginData =>
        if entryCallbackFired pluginData then
          console_error ("Received callback for already loaded plugin " ++ pluginID) None
        else
          perform (mark_entryCallbackFired pluginID pluginData) ;;;
          let* initialized :=
            try_catch
              (initSharedPluginModulesCallback entryModule ;;; ret true)
              (fun error =>
                 console_error
                   ("Failed to initialize shared modules for plugin " ++ pluginID)
                   (Some error) ;;;
                 ret false) in
          if initialized : bool then
            let* resolvedExtensions :=
              resolveEncodedCodeRefsCallback
                (extensions (manifest pluginData)) entryModule pluginID
                (console_error
                   ("Code reference resolution failed for plugin " ++ pluginID)
                   None) in
            addDynamicPlugin pluginStore pluginID (manifest pluginData)
              resolvedExtensions
          else ret tt
    end.

(** The part of the callback that runs once the flag is set (from the [try]
    around the initialiser to the call of the store); [pluginData] is the
    record read before. *)
Definition entry_after_flag (pluginStore : PluginStore)
    (initSharedPluginModulesCallback : InitSharedPluginModules)
    (resolveEncodedCodeRefsCallback : ResolveEncodedCodeRefs)
    (pluginID : string) (entryModule : RemoteEntryModule)
    (pluginData : ConsolePluginData) : Sync unit := fun w1 =>
  match initSharedPluginModulesCallback entryModule w1 with
  | (Throw error, w2) =>
      (Normal tt,
       emit (ConsoleError
               ("Failed to initialize shared modules for plugin " ++ pluginID)
               (Some error)) w2)
  | (Normal _, w2) =>
      match resolveEncodedCodeRefsCallback (extensions (manifest pluginData))
              entryModule pluginID
              (console_error
                 ("Code reference resolution failed for plugin " ++ pluginID)
                 None) w2 with
      | (Throw error, w3) => (Throw error, w3)
      | (Normal resolvedExtensions, w3) =>
          addDynamicPlugin pluginStore pluginID (manifest pluginData)
            resolvedExtensions w3
      end
  end.

(** [registerPluginEntryCallback] stores the callback in
    [window.loadPluginEntry]; the world remembers that the hook is set. *)
Definition registerPluginEntryCallback (pluginStore : PluginStore) : World -> World :=
  with_loadPluginEntry true.

(** ** The activation pipeline

    [loadAndEnablePlugin] is an [async] function with three [await]s.  Each
    piece below is the code that runs between two suspension points; the
    [Activation] says where the function is suspended, or how it ended. *)
Inductive Activation :=
| AwaitManifest (url : string)
| AwaitDependencies (url : string) (m : ConsolePluginManifestJSON)
| AwaitScript (m : ConsolePluginManifestJSON) (p : nat)
| Returned
| Failed (e : ErrorValue).

Definition finish (c : Completion unit * World) : Activation * World :=
  match c with
  | (Normal _, w) => (Returned, w)
  | (Throw e, w) => (Failed e, w)
  end.

Definition plugin_manifest_url (pluginName : string) : string :=
  basePath SERVER_FLAGS ++ "api/plugins/" ++ pluginName ++ "/".

(** Up to [await fetchPluginManifest(url)]. *)
Definition loadAndEnablePlugin_begin (pluginName : string) (w : World)
    : Activation * World :=
  let url := plugin_manifest_url pluginName in
  (AwaitManifest url, emit (FetchPluginManifest url) w).

(** From the settlement of the manifest fetch up to
    [await resolvePluginDependencies(...)]. *)
Definition loadAndEnablePlugin_manifest (pluginName : string)
    (pluginStore : PluginStore) (onError : string -> ErrorValue -> Sync unit)
    (url : string) (fetched : Completion ConsolePluginManifestJSON) (w : World)
    : Activation * World :=
  match fetched with
  | Throw e =>
      finish (onError ("Failed to get a valid plugin manifest from " ++ url) e w)
  | Normal m =>
      match getAllowedDynamicPluginNames pluginStore w with
      | (Throw e, w') =>
          finish (onError ("Failed to resolve dependencies of plugin " ++ pluginName) e w')
      | (Normal allowed, w') =>
          (AwaitDependencies url m,
           emit (ResolvePluginDependencies m
                   (semver_valid (releaseVersion SERVER_FLAGS)) allowed) w')
      end
  end.

(** From the settlement of the dependency resolution up to
    [await loadDynamicPlugin(url, manifest)]. *)
Definition loadAndEnablePlugin_dependencies (pluginName : string)
    (onError : string -> ErrorValue -> Sync unit)
    (url : string) (m : ConsolePluginManifestJSON)
    (resolved : Completion unit) (randomChars : string) (w : World)
    : Activation * World :=
  match resolved with
  | Throw e =>
      finish (onError ("Failed to resolve dependencies of plugin " ++ pluginName) e w)
  | Normal _ =>
      let (p, w') := loadDynamicPlugin url m randomChars w in
      (AwaitScript m p, w')
  end.

(** From the settlement of the script promise to the end; while the promise is
    pending the function stays suspended. *)
Definition loadAndEnablePlugin_script (pluginName : string)
    (pluginStore : PluginStore) (onError : string -> ErrorValue -> Sync unit)
    (m : ConsolePluginManifestJSON) (p : nat) (w : World)
    : Activation * World :=
  match promise_state p w with
  | Some (Rejected e) =>
      finish (onError ("Failed to load entry script of plugin " ++ pluginName) e w)
  | Some (Fulfilled _) =>
      finish (setDynamicPluginEnabled pluginStore (getPluginID m) true w)
  | _ => (AwaitScript m p, w)
  end.

(** ** Reset *)

Definition resetStateAndEnvForTestPurposes (w : World) : World :=
  let w1 := with_pluginMap map_clear w in
  let w2 := with_document_head
              (List.filter (fun element =>
                              negb (String.prefix scriptIDPrefix (script_id element))))
              w1 in
  with_loadPluginEntry false w2.

(** ** What can happen to the loader

    The environment decides what [getRandomChars] returns, whether a script
    loads, when a bundle calls the entry callback and how the shared module
    initialiser and the code reference resolver behave on that call.  Handler
    events may name any script element and the callback may be invoked whether
    or not the global hook is set: the events cover more than a browser would
    produce. *)
Inductive Event :=
| CallLoadDynamicPlugin (baseURL : string) (m : ConsolePluginManifestJSON)
    (randomChars : string)
| ScriptLoaded (script : ScriptElement)
| ScriptFailed (script : ScriptElement) (event : string)
| PluginEntry (pluginID : string) (entryModule : RemoteEntryModule)
    (initFailure : option ErrorValue) (resolved : list Extension)
    (unresolved : nat)
| ResetStateAndEnv.

Definition init_with_outcome (failure : option ErrorValue)
    : InitSharedPluginModules :=
  fun _ => match failure with None => ret tt | Some e => throw e end.

Fixpoint call_times (n : nat) (callback : Sync unit) : Sync unit :=
  match n with
  | O => ret tt
  | S n' => callback ;;; call_times n' callback
  end.

Definition resolver_with_outcome (resolved : list Extension) (unresolved : nat)
    : ResolveEncodedCodeRefs :=
  fun _ _ _ errorCallback => call_times unresolved errorCallback ;;; ret resolved.

(** An event that cannot take the record of [m] out of the map: it is not the
    reset, and it is not a load of a manifest with another name that
    [getPluginID] maps to the identifier of [m]. *)
Definition keeps_record_of (m : ConsolePluginManifestJSON) (ev : Event) : bool :=
  match ev with
  | ResetStateAndEnv => false
  | CallLoadDynamicPlugin _ m' _ =>
      negb (String.eqb (getPluginID m') (getPluginID m))
      || String.eqb (name m') (name m)
  | _ => true
  end.

(** The map holds the record of [m] under its identifier, and every record
    that carries the name of [m] carries [m]. *)
Definition holds_record_of (m : ConsolePluginManifestJSON)
    (pm : JsMap ConsolePluginData) : Prop :=
  (exists d, map_get (getPluginID m) pm = Some d /\ manifest d = m)
  /\ (forall k d, In (k, d) pm -> name (manifest d) = name m -> manifest d = m).

(** The element that [loadDynamicPlugin] builds for [m] when the duplicate
    check passes and the promise is [p]. *)
Definition script_for (p : nat) (baseURL : string)
    (m : ConsolePluginManifestJSON) (randomChars : string) : ScriptElement :=
  {| script_id := getScriptElementID m;
     script_src := resolveURL baseURL remoteEntryFile
                     (set_search ("?cacheBuster=" ++ randomChars));
     script_async := true;
     onload_pluginID := getPluginID m;
     settles := p |}.

Definition run_event (pluginStore : PluginStore) (ev : Event) (w : World) : World :=
  match ev with
  | CallLoadDynamicPlugin baseURL m randomChars =>
      snd (loadDynamicPlugin baseURL m randomChars w)
  | ScriptLoaded script => snd (script_onload script w)
  | ScriptFailed script event => snd (script_onerror script event w)
  | PluginEntry pluginID entryModule initFailure resolved unresolved =>
      snd (getPluginEntryCallback pluginStore (init_with_outcome initFailure)
             (resolver_with_outcome resolved unresolved) pluginID entryModule w)
  | ResetStateAndEnv => resetStateAndEnvForTestPurposes w
  end.

Definition run (pluginStore : PluginStore) (evs : list Event) (w : World) : World :=
  fold_left (fun w ev => run_event pluginStore ev w) evs w.

(** The effects that only [loadAndEnablePlugin] produces. *)
Definition from_pipeline (e : Effect) : bool :=
  match e with
  | SetDynamicPluginEnabled _ _ | GetAllowedDynamicPluginNames
  | FetchPluginManifest _ | ResolvePluginDependencies _ _ _ | OnError _ _ => true
  | ConsoleInfo _ | ConsoleError _ _ | AddDynamicPlugin _ _ _ => false
  end.

Definition pipeline_effects (w : World) : list Effect :=
  List.filter from_pipeline (effects w).

(** [await] on the script promise: the function resumes as soon as the promise
    is settled, before the next event is handled. *)
Fixpoint run_until_settled (pluginStore : PluginStore) (p : nat)
    (evs : list Event) (w : World) : World :=
  match evs with
  | [] => w
  | ev :: rest =>
      match promise_state p w with
      | Some Pending =>
          run_until_settled pluginStore p rest (run_event pluginStore ev w)
      | _ => w
      end
  end.

(** What the environment answers to one activation: the outcome of the
    manifest fetch, the outcome of the dependency resolution, what
    [getRandomChars] returns, and the events that reach the loader while the
    function waits for the script. *)
Record Responses := mkResponses {
  fetched_manifest : Completion ConsolePluginManifestJSON;
  resolved_dependencies : Completion unit;
  random_chars : string;
  while_script_pending : list Event;
}.

(** [loadAndEnablePlugin] run against the answers of the environment. *)
Definition loadAndEnablePlugin (pluginName : string) (pluginStore : PluginStore)
    (onError : string -> ErrorValue -> Sync unit) (env : Responses) (w : World)
    : Activation * World :=
  let (_, w1) := loadAndEnablePlugin_begin pluginName w in
  let url := plugin_manifest_url pluginName in
  match loadAndEnablePlugin_manifest pluginName pluginStore onError url
          (fetched_manifest env) w1 with
  | (AwaitDependencies url' m, w2) =>
      match loadAndEnablePlugin_dependencies pluginName onError url' m
              (resolved_dependencies env) (random_chars env) w2 with
      | (AwaitScript m' p, w3) =>
          loadAndEnablePlugin_script pluginName pluginStore onError m' p
            (run_until_settled pluginStore p (while_script_pending env) w3)
      | ended => ended
      end
  | ended => ended
  end.

End Loader.

(** ** Invariants of the loader state *)

Section Invariants.
Context `{Imports}.

Definition registry_keys (pm : JsMap ConsolePluginData) : list string :=
  List.map fst pm.

Definition registry_names (pm : JsMap ConsolePluginData) : list string :=
  List.map (fun kd => name (manifest (snd kd))) pm.

(** Every key is the identifier of the manifest stored under it. *)
Definition keys_are_ids (pm : JsMap ConsolePluginData) : Prop :=
  forall k d, In (k, d) pm -> k = getPluginID (manifest d).

Definition registry_well_formed (pm : JsMap ConsolePluginData) : Prop :=
  keys_are_ids pm
  /\ List.NoDup (registry_keys pm)
  /\ List.NoDup (registry_names pm).

(** Every record has the script element that was built for it. *)
Definition records_have_scripts (w : World) : Prop :=
  forall k d,
    In (k, d) (pluginMap w) ->
    exists script,
      In script (document_head w)
      /\ script_id script = getScriptElementID (manifest d)
      /\ onload_pluginID script = k.

Definition is_reset (ev : Event) : bool :=
  match ev with
  | ResetStateAndEnv => true
  | _ => false
  end.

(** The record of [m] is in the map and its callback has fired. *)
Definition holds_fired_record_of (m : ConsolePluginManifestJSON)
    (pm : JsMap ConsolePluginData) : Prop :=
  map_get (getPluginID m) pm
  = Some {| manifest := m; entryCallbackFired := true |}.

End Invariants.

(** The [addDynamicPlugin] calls recorded for one identifier. *)
Definition added_to_store (pluginID : string) (e : Effect) : bool :=
  match e with
  | AddDynamicPlugin pluginID' _ _ => String.eqb pluginID' pluginID
  | _ => false
  end.

Definition store_additions (pluginID : string) (w : World) : list Effect :=
  List.filter (added_to_store pluginID) (effects w).

(** A store whose [getAllowedDynamicPluginNames] throws. *)
Definition storeWithoutAllowList (e : ErrorValue) : PluginStore :=
  {| addDynamicPlugin := addDynamicPlugin (recordingStore []);
     setDynamicPluginEnabled := setDynamicPluginEnabled (recordingStore []);
     getAllowedDynamicPluginNames := throw e |}.

(** ** A concrete environment

    Modelled from the spec: [getPluginID] of ./plugin-utils is not among the
    sources; the identifier is the name and the version joined by [@], as in
    [foo@1.0.0].  The entry file name, a URL parser that appends the relative
    path to a base ending in [/], and the server flags are sample values. *)
Definition reference_imports : Imports :=
  {| getPluginID := fun m => name m ++ "@" ++ version m;
     remoteEntryFile := "plugin-entry.js";
     new_URL := fun to base =>
       {| url_before_query := base ++ to; url_query := None;
          url_fragment := None; url_special := true |};
     semver_valid := fun v => Some v;
     SERVER_FLAGS := {| basePath := "/"; releaseVersion := "4.14.0" |} |}.

Definition sample_extension : Extension :=
  {| ext_type := "console.flag"; ext_properties := "{}" |}.

Definition foo_1 : ConsolePluginManifestJSON :=
  {| name := "foo"; version := "1.0.0"; extensions := [sample_extension] |}.

Definition foo_2 : ConsolePluginManifestJSON :=
  {| name := "foo"; version := "2.0.0"; extensions := [] |}.

Definition bar_1 : ConsolePluginManifestJSON :=
  {| name := "bar"; version := "1.0.0"; extensions := [] |}.

Definition sample_module : RemoteEntryModule := {| module_label := "foo" |}.

Definition sample_store : PluginStore := recordingStore ["foo"; "bar"].

(** The world after [foo_1] was loaded from its manifest URL, the script built
    for it, and the world after its bundle called back. *)
Definition foo_loading : World :=
  snd (@loadDynamicPlugin reference_imports "/api/plugins/foo/" foo_1 "abcdef"
         initial_world).

Definition foo_script : ScriptElement :=
  @script_for reference_imports 0 "/api/plugins/foo/" foo_1 "abcdef".

Definition foo_entered : World :=
  @run reference_imports sample_store
    [PluginEntry "foo@1.0.0" sample_module None [sample_extension] 0]
    foo_loading.

(** * Properties *)

(** ** The map *)

Section JsMapFacts.
Context {V : Type}.
Implicit Types (m : JsMap V) (k : string) (v : V).

Lemma map_get_set_eq k v m : map_get k (map_set k v m) = Some v.
Proof.
  induction m as [|[k' v'] rest IH]; simpl.
  - now rewrite String.eqb_refl.
  - destruct (String.eqb k' k) eqn:E; simpl; rewrite E; auto.
Qed.

Lemma map_get_set_ne k k' v m :
  k <> k' -> map_get k' (map_set k v m) = map_get k' m.
Proof.
  intros Hne. induction m as [|[k0 v0] rest IH]; simpl.
  - destruct (String.eqb_spec k k'); congruence.
  - destruct (String.eqb_spec k0 k) as [->|Hk]; simpl.
    + destruct (String.eqb_spec k k'); congruence.
    + now rewrite IH.
Qed.

Lemma map_get_In k v m : map_get k m = Some v -> In (k, v) m.
Proof.
  induction m as [|[k' v'] rest IH]; simpl; [discriminate|].
  destruct (String.eqb_spec k' k) as [->|Hk]; intros Hg.
  - left. congruence.
  - right. auto.
Qed.

Lemma In_map_set k v m k' v' :
  In (k', v') (map_set k v m) -> (k' = k /\ v' = v) \/ In (k', v') m.
Proof.
  induction m as [|[k0 v0] rest IH]; simpl.
  - intros [E|[]]. left. split; congruence.
  - destruct (String.eqb_spec k0 k) as [->|Hk]; simpl.
    + intros [E|Hin]; [left; split; congruence | right; now right].
    + intros [E|Hin]; [right; now left|].
      destruct (IH Hin) as [?|?]; [now left | right; now right].
Qed.

Lemma map_has_get k m : map_has k m = true <-> is_Some (map_get k m).
Proof.
  unfold map_has. destruct (map_get k m); split; intros Hx;
    try reflexivity; try discriminate; eauto.
  destruct Hx; discriminate.
Qed.

End JsMapFacts.

(** ** Promises *)

Lemma settle_new_promise (s : PromiseState) (w : World) :
  settle (length (promises w)) s (snd (new_promise w))
  = with_promises (fun ps => (ps ++ [s])%list) w.
Proof.
  unfold settle, new_promise, with_promises; simpl.
  rewrite (list_lookup_middle (promises w) [] Pending (length (promises w)) eq_refl).
  simpl. f_equal.
  rewrite <- (Nat.add_0_r (length (promises w))) at 1.
  now rewrite insert_app_r.
Qed.

Lemma promise_state_snoc (s : PromiseState) (w : World) :
  promise_state (length (promises w))
    (with_promises (fun ps => (ps ++ [s])%list) w) = Some s.
Proof.
  unfold promise_state; simpl.
  now rewrite (list_lookup_middle (promises w) [] s (length (promises w)) eq_refl).
Qed.

Lemma promise_state_settle_pending (p : nat) (s : PromiseState) (w : World) :
  promise_state p w = Some Pending -> promise_state p (settle p s w) = Some s.
Proof.
  unfold promise_state, settle. intros Hp. rewrite Hp. simpl.
  apply list_lookup_insert_eq. eapply lookup_lt_Some; eauto.
Qed.

Lemma settle_frame (p : nat) (s : PromiseState) (w : World) :
  pluginMap (settle p s w) = pluginMap w
  /\ document_head (settle p s w) = document_head w
  /\ loadPluginEntry_bound (settle p s w) = loadPluginEntry_bound w
  /\ effects (settle p s w) = effects w.
Proof.
  unfold settle. destruct (promises w !! p) as [[| |]|]; simpl; auto.
Qed.

Lemma emit_many_emit (e : Effect) (es : list Effect) (w : World) :
  emit_many es (emit e w) = emit_many (e :: es) w.
Proof.
  unfold emit_many, emit; simpl. f_equal. now rewrite <- app_assoc.
Qed.

Lemma emit_emit_many (e : Effect) (es : list Effect) (w : World) :
  emit e (emit_many es w) = emit_many (es ++ [e])%list w.
Proof.
  unfold emit_many, emit; simpl. f_equal. now rewrite <- app_assoc.
Qed.

Lemma call_times_console_error (n : nat) (message : string)
    (detail : option ErrorValue) (w : World) :
  call_times n (console_error message detail) w
  = (Normal tt, emit_many (repeat (ConsoleError message detail) n) w).
Proof.
  revert w. induction n as [|n IH]; intros w; simpl.
  - unfold ret, emit_many. simpl. rewrite app_nil_r. now destruct w.
  - unfold bind, console_error, perform. rewrite IH.
    now rewrite emit_many_emit.
Qed.

Section LoaderFacts.
Context `{Imports}.

(** ** The duplicate check *)

Lemma find_existing_Some_inv m pm d :
  find_existing m pm = Some d ->
  (exists k, In (k, d) pm) /\ name (manifest d) = name m.
Proof.
  unfold find_existing, map_values. intros Hf.
  apply find_some in Hf as [Hin Heq]. split.
  - apply in_map_iff in Hin as [[k d'] [Hd Hin]]. simpl in Hd. subst. eauto.
  - now apply String.eqb_eq.
Qed.

Lemma find_existing_None_inv m pm k d :
  find_existing m pm = None -> In (k, d) pm -> name (manifest d) <> name m.
Proof.
  unfold find_existing, map_values. intros Hf Hin Hn.
  assert (Hd : In d (map snd pm)) by (apply in_map_iff; now exists (k, d)).
  pose proof (find_none _ _ Hf d Hd) as Hb. simpl in Hb.
  apply String.eqb_neq in Hb. contradiction.
Qed.

Lemma find_existing_In m pm k d :
  In (k, d) pm -> name (manifest d) = name m ->
  exists d', find_existing m pm = Some d'.
Proof.
  intros Hin Hn. destruct (find_existing m pm) eqn:E; eauto.
  exfalso. eapply find_existing_None_inv; eauto.
Qed.

(** ** The two outcomes of [loadDynamicPlugin] *)

Lemma loadDynamicPlugin_rejected baseURL m randomChars w existing :
  find_existing m (pluginMap w) = Some existing ->
  loadDynamicPlugin baseURL m randomChars w
  = (length (promises w),
     with_promises
       (fun ps =>
          (ps ++ [Rejected (Error ("Attempt to reload plugin "
                                     ++ getPluginID (manifest existing)
                                     ++ " with " ++ getPluginID m))])%list) w).
Proof.
  intros Hf. unfold loadDynamicPlugin.
  change (new_promise w) with (length (promises w), snd (new_promise w)).
  cbv beta iota. unfold loadDynamicPlugin_executor.
  change (pluginMap (snd (new_promise w))) with (pluginMap w).
  rewrite Hf. now rewrite settle_new_promise.
Qed.

Lemma loadDynamicPlugin_accepted baseURL m randomChars w :
  find_existing m (pluginMap w) = None ->
  loadDynamicPlugin baseURL m randomChars w
  = (length (promises w),
     {| pluginMap :=
          map_set (getPluginID m)
            {| manifest := m; entryCallbackFired := false |} (pluginMap w);
        document_head :=
          (document_head w
             ++ [script_for (length (promises w)) baseURL m randomChars])%list;
        loadPluginEntry_bound := loadPluginEntry_bound w;
        promises := (promises w ++ [Pending])%list;
        effects :=
          (effects w
             ++ [ConsoleInfo ("Loading entry script for plugin "
                                ++ getPluginID m)])%list |}).
Proof.
  intros Hf. unfold loadDynamicPlugin.
  change (new_promise w) with (length (promises w), snd (new_promise w)).
  cbv beta iota. unfold loadDynamicPlugin_executor.
  change (pluginMap (snd (new_promise w))) with (pluginMap w).
  now rewrite Hf.
Qed.

(** ** The entry callback, case by case *)

Ltac enter_callback Hg :=
  unfold getPluginEntryCallback, bind, read, map_has;
  cbv beta; rewrite ?Hg; cbv beta iota; cbn [negb]; cbv beta iota;
  rewrite ?Hg; cbv beta iota.

Lemma entry_callback_unknown store init resolver pluginID entryModule w :
  map_get pluginID (pluginMap w) = None ->
  getPluginEntryCallback store init resolver pluginID entryModule w
  = (Normal tt,
     emit (ConsoleError ("Received callback for unknown plugin " ++ pluginID) None) w).
Proof.
  intros Hg. enter_callback Hg. reflexivity.
Qed.

Lemma entry_callback_already_fired store init resolver pluginID entryModule w d :
  map_get pluginID (pluginMap w) = Some d ->
  entryCallbackFired d = true ->
  getPluginEntryCallback store init resolver pluginID entryModule w
  = (Normal tt,
     emit (ConsoleError ("Received callback for already loaded plugin " ++ pluginID)
             None) w).
Proof.
  intros Hg Hfired. enter_callback Hg. now rewrite Hfired.
Qed.

Lemma entry_callback_first store init resolver pluginID entryModule w d :
  map_get pluginID (pluginMap w) = Some d ->
  entryCallbackFired d = false ->
  getPluginEntryCallback store init resolver pluginID entryModule w
  = entry_after_flag store init resolver pluginID entryModule d
      (mark_entryCallbackFired pluginID d w).
Proof.
  intros Hg Hfired. enter_callback Hg. rewrite Hfired.
  unfold entry_after_flag, try_catch, perform, ret, console_error, bind.
  cbv beta iota.
  destruct (init entryModule (mark_entryCallbackFired pluginID d w)) as [[[]|error] w2];
    reflexivity.
Qed.

Lemma mark_entryCallbackFired_get pluginID d w :
  map_get pluginID (pluginMap (mark_entryCallbackFired pluginID d w))
  = Some {| manifest := manifest d; entryCallbackFired := true |}.
Proof. unfold mark_entryCallbackFired; simpl. apply map_get_set_eq. Qed.

(** A [PluginEntry] event, written out. *)
Lemma run_event_PluginEntry allowed pluginID entryModule initFailure resolved
    unresolved w :
  run_event (recordingStore allowed)
    (PluginEntry pluginID entryModule initFailure resolved unresolved) w
  = match map_get pluginID (pluginMap w) with
    | None =>
        emit (ConsoleError ("Received callback for unknown plugin " ++ pluginID)
                None) w
    | Some d =>
        if entryCallbackFired d then
          emit (ConsoleError
                  ("Received callback for already loaded plugin " ++ pluginID)
                  None) w
        else
          match initFailure with
          | Some error =>
              emit (ConsoleError
                      ("Failed to initialize shared modules for plugin "
                         ++ pluginID) (Some error))
                (mark_entryCallbackFired pluginID d w)
          | None =>
              emit (AddDynamicPlugin pluginID (manifest d) resolved)
                (emit_many
                   (repeat (ConsoleError
                              ("Code reference resolution failed for plugin "
                                 ++ pluginID) None) unresolved)
                   (mark_entryCallbackFired pluginID d w))
          end
    end.
Proof.
  unfold run_event.
  destruct (map_get pluginID (pluginMap w)) as [d|] eqn:Hg.
  - destruct (entryCallbackFired d) eqn:Hfired.
    + now rewrite (entry_callback_already_fired _ _ _ _ _ _ d Hg Hfired).
    + rewrite (entry_callback_first _ _ _ _ _ _ d Hg Hfired).
      unfold entry_after_flag.
      destruct initFailure as [error|]; simpl; [reflexivity|].
      unfold resolver_with_outcome, bind.
      rewrite call_times_console_error. reflexivity.
  - now rewrite entry_callback_unknown.
Qed.

(** ** Records stay in the map *)

Lemma holds_record_after_insert m pm :
  find_existing m pm = None ->
  holds_record_of m
    (map_set (getPluginID m) {| manifest := m; entryCallbackFired := false |} pm).
Proof.
  intros Hf. split.
  - eexists. split; [apply map_get_set_eq | reflexivity].
  - intros k d Hin Hn. apply In_map_set in Hin as [[_ ->]|Hin]; [reflexivity|].
    exfalso. eapply find_existing_None_inv; eauto.
Qed.

Lemma holds_record_find m1 m2 pm :
  holds_record_of m1 pm -> name m2 = name m1 ->
  exists d, find_existing m2 pm = Some d /\ manifest d = m1.
Proof.
  intros [[d [Hg Hd]] Hall] Hn.
  destruct (find_existing_In m2 pm (getPluginID m1) d) as [d' Hf].
  - now apply map_get_In.
  - now rewrite Hd.
  - exists d'. split; [assumption|].
    apply find_existing_Some_inv in Hf as [[k Hin] Hn'].
    apply (Hall k d' Hin). congruence.
Qed.

Lemma holds_record_mark m pluginID d pm :
  map_get pluginID pm = Some d ->
  holds_record_of m pm ->
  holds_record_of m
    (map_set pluginID {| manifest := manifest d; entryCallbackFired := true |} pm).
Proof.
  intros Hg [[d0 [Hg0 Hd0]] Hall]. split.
  - destruct (String.eqb_spec pluginID (getPluginID m)) as [->|Hne].
    + eexists. split; [apply map_get_set_eq|]. simpl. congruence.
    + exists d0. split; [|assumption]. now rewrite map_get_set_ne.
  - intros k d' Hin Hn. apply In_map_set in Hin as [[_ ->]|Hin].
    + simpl in *. apply (Hall pluginID d); [now apply map_get_In | assumption].
    + eauto.
Qed.

Lemma holds_record_run_event allowed m ev w :
  keeps_record_of m ev = true ->
  holds_record_of m (pluginMap w) ->
  holds_record_of m (pluginMap (run_event (recordingStore allowed) ev w)).
Proof.
  intros Hk Hh.
  destruct ev as [baseURL m' randomChars|script|script event
                 |pluginID entryModule initFailure resolved unresolved|].
  - (* a load *)
    unfold run_event.
    destruct (find_existing m' (pluginMap w)) as [existing|] eqn:Hf.
    + now rewrite (loadDynamicPlugin_rejected _ _ _ _ _ Hf).
    + rewrite (loadDynamicPlugin_accepted _ _ _ _ Hf). simpl.
      assert (Hname : name m' <> name m).
      { intros Hn. destruct (holds_record_find m m' _ Hh Hn) as [d [Hf' _]].
        congruence. }
      simpl in Hk. apply orb_true_iff in Hk as [Hk|Hk];
        [|apply String.eqb_eq in Hk; contradiction].
      apply negb_true_iff, String.eqb_neq in Hk.
      destruct Hh as [[d [Hg Hd]] Hall]. split.
      * exists d. split; [|assumption]. now rewrite map_get_set_ne.
      * intros k d' Hin Hn. apply In_map_set in Hin as [[_ ->]|Hin]; eauto.
        simpl in Hn. contradiction.
  - (* the load event of a script *)
    unfold run_event, script_onload.
    destruct (map_get (onload_pluginID script) (pluginMap w)) as [d|]; simpl;
      [|assumption].
    destruct (entryCallbackFired d); simpl;
      now rewrite (proj1 (settle_frame _ _ _)).
  - (* the error event of a script *)
    unfold run_event, script_onerror, perform. simpl.
    now rewrite (proj1 (settle_frame _ _ _)).
  - (* the entry callback *)
    rewrite run_event_PluginEntry.
    destruct (map_get pluginID (pluginMap w)) as [d|] eqn:Hg; [|assumption].
    destruct (entryCallbackFired d); [assumption|].
    destruct initFailure; simpl; now apply holds_record_mark.
  - discriminate.
Qed.

Lemma holds_record_run allowed m evs w :
  forallb (keeps_record_of m) evs = true ->
  holds_record_of m (pluginMap w) ->
  holds_record_of m (pluginMap (run (recordingStore allowed) evs w)).
Proof.
  revert w. induction evs as [|ev evs IH]; intros w Hk Hh; [assumption|].
  simpl in Hk. apply andb_true_iff in Hk as [Hev Hevs].
  unfold run. simpl. apply IH; [assumption|].
  now apply holds_record_run_event.
Qed.

(** ** C1: a second load under the same name *)

(** C1.  Let the load of [m1] pass the duplicate check, so that its pending
    record is inserted, and let any events follow that are neither the reset
    nor a load whose identifier collides with that of [m1].  Then a load of
    any manifest [m2] with the name of [m1] is rejected with the
    duplicate-plugin error that names both identifiers, and the world is the
    same as before the call except for the new, rejected promise: the map,
    the document and the recorded effects are untouched. *)
Theorem loadDynamicPlugin_duplicate_rejected
    (allowed : list string) (baseURL1 baseURL2 randomChars1 randomChars2 : string)
    (m1 m2 : ConsolePluginManifestJSON) (evs : list Event) (w : World) :
  name m1 = name m2 ->
  find_existing m1 (pluginMap w) = None ->
  forallb (keeps_record_of m1) evs = true ->
  let w1 := snd (loadDynamicPlugin baseURL1 m1 randomChars1 w) in
  let w2 := run (recordingStore allowed) evs w1 in
  let p := fst (loadDynamicPlugin baseURL2 m2 randomChars2 w2) in
  let w3 := snd (loadDynamicPlugin baseURL2 m2 randomChars2 w2) in
  promise_state p w3
  = Some (Rejected (Error ("Attempt to reload plugin " ++ getPluginID m1
                             ++ " with " ++ getPluginID m2)))
  /\ pluginMap w3 = pluginMap w2
  /\ document_head w3 = document_head w2
  /\ effects w3 = effects w2
  /\ loadPluginEntry_bound w3 = loadPluginEntry_bound w2
  /\ promises w3 = (promises w2 ++ [Rejected (Error ("Attempt to reload plugin "
                                        ++ getPluginID m1
                                        ++ " with " ++ getPluginID m2))])%list.
Proof.
  intros Hname Hfresh Hquiet w1 w2 p w3.
  assert (Hh : holds_record_of m1 (pluginMap w2)).
  { apply holds_record_run; [assumption|]. subst w1.
    rewrite (loadDynamicPlugin_accepted _ _ _ _ Hfresh). simpl.
    now apply holds_record_after_insert. }
  destruct (holds_record_find m1 m2 _ Hh (eq_sym Hname)) as [d [Hf Hd]].
  subst p w3. rewrite (loadDynamicPlugin_rejected _ _ _ _ _ Hf). simpl.
  rewrite Hd. repeat split.
  apply promise_state_snoc.
Qed.

(** ** C4 and C10: the load event of the script *)

(** C4.  When the load event of the script built by [loadDynamicPlugin] fires
    while the record of the plugin is in the map and the promise is still
    pending, the handler returns normally and the promise is fulfilled with
    the plugin identifier exactly when the record's [entryCallbackFired] is
    true at that moment; when it is false the promise is rejected with the
    loaded-without-callback error.  Nothing else changes. *)
Theorem script_onload_resolves_iff_callback_fired
    (p : nat) (baseURL randomChars : string) (m : ConsolePluginManifestJSON)
    (pluginData : ConsolePluginData) (w : World) :
  map_get (getPluginID m) (pluginMap w) = Some pluginData ->
  promise_state p w = Some Pending ->
  let script := script_for p baseURL m randomChars in
  let w' := snd (script_onload script w) in
  fst (script_onload script w) = Normal tt
  /\ (promise_state p w' = Some (Fulfilled (getPluginID m))
      <-> entryCallbackFired pluginData = true)
  /\ (promise_state p w'
      = Some (Rejected (Error ("Entry script for plugin " ++ getPluginID m
                                 ++ " loaded without callback")))
      <-> entryCallbackFired pluginData = false)
  /\ pluginMap w' = pluginMap w
  /\ document_head w' = document_head w
  /\ effects w' = effects w.
Proof.
  intros Hg Hp script w'. subst w'. unfold script_onload.
  change (onload_pluginID script) with (getPluginID m).
  change (settles script) with p.
  rewrite Hg.
  destruct (entryCallbackFired pluginData); cbn [fst snd];
    rewrite (promise_state_settle_pending _ _ _ Hp);
    match goal with
    | |- context [settle p ?s w] =>
        destruct (settle_frame p s w) as (-> & -> & _ & ->)
    end;
    repeat split; intros; try reflexivity; try discriminate.
Qed.

(** C10.  The load handler reads [entryCallbackFired] of
    [pluginMap.get(pluginID)] without a presence check: it returns normally
    exactly when the map has a record for the identifier, and throws a
    [TypeError], leaving the promise as it was, when the record is absent.
    After a reset the record is absent, so a load event that arrives then
    makes the handler throw. *)
Theorem script_onload_needs_record
    (p : nat) (baseURL randomChars : string) (m : ConsolePluginManifestJSON)
    (w : World) :
  let script := script_for p baseURL m randomChars in
  let absent :=
    TypeError "Cannot read properties of undefined (reading 'entryCallbackFired')" in
  fst (script_onload script w)
  = match map_get (getPluginID m) (pluginMap w) with
    | Some _ => Normal tt
    | None => Throw absent
    end
  /\ (map_has (getPluginID m) (pluginMap w) = false ->
      script_onload script w = (Throw absent, w))
  /\ script_onload script (resetStateAndEnvForTestPurposes w)
     = (Throw absent, resetStateAndEnvForTestPurposes w)
  /\ script_onload script
       (resetStateAndEnvForTestPurposes
          (snd (loadDynamicPlugin baseURL m randomChars w)))
     = (Throw absent,
        resetStateAndEnvForTestPurposes
          (snd (loadDynamicPlugin baseURL m randomChars w))).
Proof.
  intros script absent. unfold script_onload, map_has.
  change (onload_pluginID script) with (getPluginID m).
  repeat split.
  - destruct (map_get (getPluginID m) (pluginMap w)) as [d|]; [|reflexivity].
    now destruct (entryCallbackFired d).
  - destruct (map_get (getPluginID m) (pluginMap w)); [discriminate|reflexivity].
Qed.

(** ** C6: a callback for an unknown plugin *)

(** C6.  When the map has no record for [pluginID], the entry callback, with
    whatever store, initialiser and resolver it was built from, returns
    normally and only writes one line to the console: no collaborator is
    called, and the map, the document and the promises are as before. *)
Theorem entry_callback_unknown_plugin_noop
    (store : PluginStore) (init : InitSharedPluginModules)
    (resolver : ResolveEncodedCodeRefs) (pluginID : string)
    (entryModule : RemoteEntryModule) (w : World) :
  map_get pluginID (pluginMap w) = None ->
  let result := getPluginEntryCallback store init resolver pluginID entryModule w in
  fst result = Normal tt
  /\ snd result
     = emit (ConsoleError ("Received callback for unknown plugin " ++ pluginID)
               None) w
  /\ pluginMap (snd result) = pluginMap w
  /\ document_head (snd result) = document_head w
  /\ promises (snd result) = promises w
  /\ effects (snd result)
     = (effects w
          ++ [ConsoleError ("Received callback for unknown plugin " ++ pluginID)
                None])%list.
Proof.
  intros Hg result. subst result.
  rewrite (entry_callback_unknown _ _ _ _ _ _ Hg). repeat split.
Qed.

(** ** C3 and C5: the entry callback fires once *)

Lemma run_event_PluginEntry_sets_flag allowed pluginID entryModule initFailure
    resolved unresolved w d :
  map_get pluginID (pluginMap w) = Some d ->
  exists d',
    map_get pluginID
      (pluginMap (run_event (recordingStore allowed)
                    (PluginEntry pluginID entryModule initFailure resolved
                       unresolved) w)) = Some d'
    /\ entryCallbackFired d' = true /\ manifest d' = manifest d.
Proof.
  intros Hg. rewrite run_event_PluginEntry, Hg.
  destruct (entryCallbackFired d) eqn:Hfired.
  - exists d. simpl. auto.
  - exists {| manifest := manifest d; entryCallbackFired := true |}.
    destruct initFailure; simpl; rewrite map_get_set_eq; auto.
Qed.

(** C3.  Let the map hold a record for [pluginID] whose flag is still false.
    (1) The first invocation sets the flag and only then runs the rest: the
    initialiser starts in a world where the record already reads
    [entryCallbackFired = true].  (2) Any invocation for that identifier that
    finds the flag set, whatever its collaborators, returns after one console
    line: it reaches neither the initialiser nor the resolver nor the store.
    (3) In particular an initialiser that calls the callback again for the
    same identifier while the first invocation is still running gets that
    no-op, and the first invocation goes on as if only the console line had
    been written.  (4) Two invocations one after the other: the second adds
    one console line to what the first left. *)
Theorem entry_callback_fires_once
    (store : PluginStore) (init : InitSharedPluginModules)
    (resolver : ResolveEncodedCodeRefs) (pluginID : string)
    (entryModule : RemoteEntryModule) (d : ConsolePluginData) (w : World) :
  map_get pluginID (pluginMap w) = Some d ->
  entryCallbackFired d = false ->
  let w1 := mark_entryCallbackFired pluginID d w in
  let rejected :=
    ConsoleError ("Received callback for already loaded plugin " ++ pluginID)
      None in
  (map_get pluginID (pluginMap w1)
   = Some {| manifest := manifest d; entryCallbackFired := true |}
   /\ getPluginEntryCallback store init resolver pluginID entryModule w
      = entry_after_flag store init resolver pluginID entryModule d w1)
  /\ (forall store' init' resolver' entryModule' w' d',
        map_get pluginID (pluginMap w') = Some d' ->
        entryCallbackFired d' = true ->
        getPluginEntryCallback store' init' resolver' pluginID entryModule' w'
        = (Normal tt, emit rejected w'))
  /\ (forall store' init' resolver' entryModule',
        let reentrant : InitSharedPluginModules := fun module =>
          getPluginEntryCallback store' init' resolver' pluginID entryModule' ;;;
          init module in
        getPluginEntryCallback store reentrant resolver pluginID entryModule w
        = entry_after_flag store init resolver pluginID entryModule d
            (emit rejected w1))
  /\ (forall allowed module1 failure1 resolved1 unresolved1
             module2 failure2 resolved2 unresolved2,
        let first :=
          PluginEntry pluginID module1 failure1 resolved1 unresolved1 in
        let second :=
          PluginEntry pluginID module2 failure2 resolved2 unresolved2 in
        run (recordingStore allowed) [first; second] w
        = emit rejected (run (recordingStore allowed) [first] w)).
Proof.
  intros Hg Hfired w1 rejected.
  assert (Hflag : map_get pluginID (pluginMap w1)
                  = Some {| manifest := manifest d; entryCallbackFired := true |})
    by apply mark_entryCallbackFired_get.
  split; [split; [exact Hflag | now apply entry_callback_first]|].
  split; [intros; now apply entry_callback_already_fired with (d := d')|].
  split.
  - intros store' init' resolver' entryModule' reentrant.
    rewrite (entry_callback_first _ _ _ _ _ _ d Hg Hfired).
    fold w1. unfold entry_after_flag at 1 2. subst reentrant.
    unfold bind at 1. cbv beta.
    rewrite (entry_callback_already_fired store' init' resolver' pluginID
               entryModule' w1 _ Hflag eq_refl).
    reflexivity.
  - intros allowed module1 failure1 resolved1 unresolved1
      module2 failure2 resolved2 unresolved2 first second.
    unfold run. cbn [fold_left].
    destruct (run_event_PluginEntry_sets_flag allowed pluginID module1 failure1
                resolved1 unresolved1 w d Hg) as (d' & Hg' & Hfired' & _).
    fold first in Hg'. subst second. unfold run_event at 1.
    now rewrite (entry_callback_already_fired _ _ _ _ _ _ d' Hg' Hfired').
Qed.

(** C5.  Let the map hold a record for [pluginID] with the flag false, and let
    the shared-module initialiser throw, leaving the record and the script's
    pending promise alone.  Then the callback returns normally after logging
    the failure; the result does not depend on the store or the resolver, so
    [addDynamicPlugin] is not called, and any later callback for the
    identifier is the already-loaded no-op.  The flag is set all the same, so
    when the script's load event fires the promise is fulfilled with the
    plugin identifier. *)
Theorem entry_callback_init_failure_still_resolves
    (store : PluginStore) (init : InitSharedPluginModules)
    (resolver : ResolveEncodedCodeRefs) (pluginID : string)
    (entryModule : RemoteEntryModule) (d : ConsolePluginData)
    (error : ErrorValue) (script : ScriptElement) (w w2 : World) :
  map_get pluginID (pluginMap w) = Some d ->
  entryCallbackFired d = false ->
  init entryModule (mark_entryCallbackFired pluginID d w) = (Throw error, w2) ->
  map_get pluginID (pluginMap w2)
  = map_get pluginID (pluginMap (mark_entryCallbackFired pluginID d w)) ->
  onload_pluginID script = pluginID ->
  promise_state (settles script) w2 = Some Pending ->
  let w3 :=
    emit (ConsoleError
            ("Failed to initialize shared modules for plugin " ++ pluginID)
            (Some error)) w2 in
  (forall store' resolver',
     getPluginEntryCallback store' init resolver' pluginID entryModule w
     = (Normal tt, w3))
  /\ getPluginEntryCallback store init resolver pluginID entryModule w
     = (Normal tt, w3)
  /\ map_get pluginID (pluginMap w3)
     = Some {| manifest := manifest d; entryCallbackFired := true |}
  /\ (forall store' init' resolver' entryModule',
        getPluginEntryCallback store' init' resolver' pluginID entryModule' w3
        = (Normal tt,
           emit (ConsoleError
                   ("Received callback for already loaded plugin " ++ pluginID)
                   None) w3))
  /\ fst (script_onload script w3) = Normal tt
  /\ promise_state (settles script) (snd (script_onload script w3))
     = Some (Fulfilled pluginID).
Proof.
  intros Hg Hfired Hinit Hframe Hid Hp w3.
  assert (Hcall : forall store' resolver',
            getPluginEntryCallback store' init resolver' pluginID entryModule w
            = (Normal tt, w3)).
  { intros store' resolver'.
    rewrite (entry_callback_first _ _ _ _ _ _ d Hg Hfired).
    unfold entry_after_flag. now rewrite Hinit. }
  assert (Hflag : map_get pluginID (pluginMap w3)
                  = Some {| manifest := manifest d; entryCallbackFired := true |}).
  { subst w3. simpl. rewrite Hframe. apply mark_entryCallbackFired_get. }
  split; [exact Hcall|]. split; [apply Hcall|]. split; [exact Hflag|].
  split.
  - intros. now apply entry_callback_already_fired with (d := 
      {| manifest := manifest d; entryCallbackFired := true |}).
  - unfold script_onload. rewrite Hid, Hflag. cbn [entryCallbackFired fst snd].
    split; [reflexivity|].
    apply promise_state_settle_pending. exact Hp.
Qed.

(** ** C2 and C9: the activation pipeline *)

Lemma loadDynamicPlugin_pair baseURL m randomChars w :
  loadDynamicPlugin baseURL m randomChars w
  = (length (promises w), snd (loadDynamicPlugin baseURL m randomChars w)).
Proof. reflexivity. Qed.

Lemma pipeline_effects_emit_many es w :
  pipeline_effects (emit_many es w)
  = (pipeline_effects w ++ List.filter from_pipeline es)%list.
Proof. unfold pipeline_effects, emit_many; simpl. apply List.filter_app. Qed.

Lemma pipeline_effects_emit e w :
  pipeline_effects (emit e w)
  = (pipeline_effects w ++ List.filter from_pipeline [e])%list.
Proof. apply (pipeline_effects_emit_many [e] w). Qed.

Lemma pipeline_effects_settle p s w :
  pipeline_effects (settle p s w) = pipeline_effects w.
Proof.
  unfold pipeline_effects.
  now destruct (settle_frame p s w) as (_ & _ & _ & ->).
Qed.

Lemma filter_repeat_ConsoleError message detail n :
  List.filter from_pipeline (repeat (ConsoleError message detail) n) = [].
Proof. induction n; simpl; auto. Qed.

(** No event of the loader itself reports an error or touches the store's
    enabled flags. *)
Lemma pipeline_effects_run_event allowed ev w :
  pipeline_effects (run_event (recordingStore allowed) ev w) = pipeline_effects w.
Proof.
  destruct ev as [baseURL m randomChars|script|script event
                 |pluginID entryModule initFailure resolved unresolved|].
  - unfold run_event.
    destruct (find_existing m (pluginMap w)) as [existing|] eqn:Hf.
    + now rewrite (loadDynamicPlugin_rejected _ _ _ _ _ Hf).
    + rewrite (loadDynamicPlugin_accepted _ _ _ _ Hf).
      unfold pipeline_effects; simpl. rewrite List.filter_app; simpl.
      apply app_nil_r.
  - unfold run_event, script_onload.
    destruct (map_get (onload_pluginID script) (pluginMap w)) as [d|];
      [|reflexivity].
    destruct (entryCallbackFired d); simpl; apply pipeline_effects_settle.
  - unfold run_event, script_onerror, perform; simpl.
    apply pipeline_effects_settle.
  - rewrite run_event_PluginEntry.
    destruct (map_get pluginID (pluginMap w)) as [d|];
      [|rewrite pipeline_effects_emit; apply app_nil_r].
    destruct (entryCallbackFired d);
      [rewrite pipeline_effects_emit; apply app_nil_r|].
    destruct initFailure.
    + rewrite pipeline_effects_emit. simpl. now rewrite app_nil_r.
    + rewrite pipeline_effects_emit, pipeline_effects_emit_many,
        filter_repeat_ConsoleError. simpl. now rewrite !app_nil_r.
  - reflexivity.
Qed.

Lemma pipeline_effects_run_until_settled allowed p evs w :
  pipeline_effects (run_until_settled (recordingStore allowed) p evs w)
  = pipeline_effects w.
Proof.
  revert w. induction evs as [|ev evs IH]; intros w; [reflexivity|].
  cbn [run_until_settled].
  destruct (promise_state p w) as [[| |]|]; try reflexivity.
  now rewrite IH, pipeline_effects_run_event.
Qed.

Lemma run_until_settled_rejected store p evs w reason :
  promise_state p w = Some (Rejected reason) ->
  run_until_settled store p evs w = w.
Proof. intros Hp. destruct evs; simpl; [reflexivity | now rewrite Hp]. Qed.

Lemma pipeline_effects_loadDynamicPlugin baseURL m randomChars w :
  pipeline_effects (snd (loadDynamicPlugin baseURL m randomChars w))
  = pipeline_effects w.
Proof.
  apply (pipeline_effects_run_event []
           (CallLoadDynamicPlugin baseURL m randomChars) w).
Qed.

(** With a manifest and resolved dependencies the pipeline reaches the
    script injection, with the fetch URL as base URL. *)
Lemma loadAndEnablePlugin_reaches_injection allowed pluginName onError m
    randomChars evs w :
  loadAndEnablePlugin pluginName (recordingStore allowed) onError
    (mkResponses (Normal m) (Normal tt) randomChars evs) w
  = loadAndEnablePlugin_script pluginName (recordingStore allowed) onError m
      (length (promises w))
      (run_until_settled (recordingStore allowed) (length (promises w)) evs
         (snd (loadDynamicPlugin (plugin_manifest_url pluginName) m randomChars
                 (emit_many
                    [FetchPluginManifest (plugin_manifest_url pluginName);
                     GetAllowedDynamicPluginNames;
                     ResolvePluginDependencies m
                       (semver_valid (releaseVersion SERVER_FLAGS)) allowed]
                    w)))).
Proof.
  unfold loadAndEnablePlugin, loadAndEnablePlugin_begin,
    loadAndEnablePlugin_manifest, loadAndEnablePlugin_dependencies.
  cbn [fetched_manifest resolved_dependencies random_chars
       while_script_pending recordingStore getAllowedDynamicPluginNames].
  rewrite loadDynamicPlugin_pair.
  cbn [promises emit].
  do 3 f_equal. unfold emit, emit_many; cbn [pluginMap document_head
    loadPluginEntry_bound promises effects]. f_equal.
  now rewrite <- !app_assoc.
Qed.

(** C2.  [loadAndEnablePlugin] against a recording store and a recording
    [onError] stops at the first stage that fails.
    (1) The manifest fetch fails: the function returns after the fetch and one
    [onError] call whose message ends with the fetch URL and whose cause is
    the failure; nothing else happened, so the dependency resolution, the
    script injection and the store were not reached (and for an arbitrary
    store and reporter the outcome is one call of the reporter, whatever the
    store is).
    (2) The dependency resolution fails: one [onError] call with the cause
    after the allow-list was read; the map, the document and the promises
    are untouched, so no script was injected.
    (3) The script promise is rejected: one [onError] call with the reason;
    of the effects only the pipeline produces there are exactly the fetch, the
    allow-list read, the dependency resolution and that [onError];
    [setDynamicPluginEnabled] is not called.
    (4) In any world, with any store and reporter, the code that runs when an
    awaited stage has failed is one call of the reporter and the end of the
    function. *)
Theorem loadAndEnablePlugin_stops_at_first_failure
    (allowed : list string) (pluginName : string) (w : World) :
  let store := recordingStore allowed in
  let url := plugin_manifest_url pluginName in
  let fetch := FetchPluginManifest url in
  let resolve m :=
    ResolvePluginDependencies m (semver_valid (releaseVersion SERVER_FLAGS))
      allowed in
  (forall cause deps randomChars evs,
     let env := mkResponses (Throw cause) deps randomChars evs in
     let message := "Failed to get a valid plugin manifest from " ++ url in
     loadAndEnablePlugin pluginName store recordingOnError env w
     = (Returned, emit_many [fetch; OnError message cause] w)
     /\ (forall store' onError',
           loadAndEnablePlugin pluginName store' onError' env w
           = finish (onError' message cause (emit fetch w))))
  /\ (forall m cause randomChars evs,
        let env := mkResponses (Normal m) (Throw cause) randomChars evs in
        let message := "Failed to resolve dependencies of plugin " ++ pluginName in
        loadAndEnablePlugin pluginName store recordingOnError env w
        = (Returned,
           emit_many [fetch; GetAllowedDynamicPluginNames; resolve m;
                      OnError message cause] w))
  /\ (forall m cause randomChars evs,
        let env := mkResponses (Normal m) (Normal tt) randomChars evs in
        let message := "Failed to load entry script of plugin " ++ pluginName in
        let w2 := emit_many [fetch; GetAllowedDynamicPluginNames; resolve m] w in
        let w3 :=
          run_until_settled store (length (promises w)) evs
            (snd (loadDynamicPlugin url m randomChars w2)) in
        promise_state (length (promises w)) w3 = Some (Rejected cause) ->
        loadAndEnablePlugin pluginName store recordingOnError env w
        = (Returned, emit (OnError message cause) w3)
        /\ pipeline_effects (emit (OnError message cause) w3)
           = (pipeline_effects w
                ++ [fetch; GetAllowedDynamicPluginNames; resolve m;
                    OnError message cause])%list)
  /\ (forall store' onError' url' m p cause randomChars w',
        loadAndEnablePlugin_manifest pluginName store' onError' url'
          (Throw cause) w'
        = finish (onError' ("Failed to get a valid plugin manifest from " ++ url')
                    cause w')
        /\ loadAndEnablePlugin_dependencies pluginName onError' url' m
             (Throw cause) randomChars w'
           = finish (onError' ("Failed to resolve dependencies of plugin "
                                 ++ pluginName) cause w')
        /\ (promise_state p w' = Some (Rejected cause) ->
            loadAndEnablePlugin_script pluginName store' onError' m p w'
            = finish (onError' ("Failed to load entry script of plugin "
                                  ++ pluginName) cause w'))).
Proof.
  intros store url fetch resolve. split; [|split; [|split]];
    [| | |intros store' onError' url' m p cause randomChars w';
          split; [reflexivity|split; [reflexivity|]];
          intros Hp; unfold loadAndEnablePlugin_script; now rewrite Hp].
  - intros cause deps randomChars evs env message. split.
    + unfold loadAndEnablePlugin, loadAndEnablePlugin_begin,
        loadAndEnablePlugin_manifest, recordingOnError, perform, finish.
      cbn -[String.append plugin_manifest_url].
      unfold emit, emit_many. cbn -[String.append plugin_manifest_url].
      do 2 f_equal. now rewrite <- !app_assoc.
    + intros store' onError'.
      unfold loadAndEnablePlugin, loadAndEnablePlugin_begin,
        loadAndEnablePlugin_manifest, finish.
      cbn [fetched_manifest env]. fold url fetch message.
      destruct (onError' message cause (emit fetch w)) as [[[]|e] w'];
        reflexivity.
  - intros m cause randomChars evs env message.
    unfold loadAndEnablePlugin, loadAndEnablePlugin_begin,
      loadAndEnablePlugin_manifest, loadAndEnablePlugin_dependencies,
      recordingOnError, perform, finish.
    cbn -[String.append plugin_manifest_url].
    unfold emit, emit_many. cbn -[String.append plugin_manifest_url].
    do 2 f_equal. now rewrite <- !app_assoc.
  - intros m cause randomChars evs env message w2 w3 Hp.
    split.
    + subst env w3 w2 resolve fetch url store. cbv beta in *.
      rewrite loadAndEnablePlugin_reaches_injection.
      unfold loadAndEnablePlugin_script. rewrite Hp. reflexivity.
    + subst env w3 w2 resolve fetch url store. cbv beta in *.
      rewrite pipeline_effects_emit, pipeline_effects_run_until_settled,
        pipeline_effects_loadDynamicPlugin, pipeline_effects_emit_many.
      cbn [List.filter from_pipeline]. now rewrite <- app_assoc.
Qed.

Lemma append_assoc_string (a b c : string) : (a ++ b) ++ c = a ++ b ++ c.
Proof. induction a as [|x a IH]; simpl; [reflexivity | now rewrite IH]. Qed.

(** C9.  The pipeline computes the URL as the base path of the server flags
    followed by [api/plugins/], the plugin name and a slash; the slash in
    front of [api] is the one the base path ends with, so a base path [b/]
    gives [b/api/plugins/<name>/].  It fetches the manifest from that URL, and
    once the manifest is there and its dependencies are resolved it calls
    [loadDynamicPlugin] with the same URL as base URL, so that the script's
    address is the entry file resolved against it. *)
Theorem loadAndEnablePlugin_fetch_url_is_base_url
    (allowed : list string) (pluginName : string)
    (onError : string -> ErrorValue -> Sync unit) (w : World) :
  let url := basePath SERVER_FLAGS ++ "api/plugins/" ++ pluginName ++ "/" in
  let store := recordingStore allowed in
  loadAndEnablePlugin_begin pluginName w
  = (AwaitManifest url, emit (FetchPluginManifest url) w)
  /\ (forall b, basePath SERVER_FLAGS = b ++ "/" ->
        url = b ++ "/api/plugins/" ++ pluginName ++ "/")
  /\ (forall m randomChars evs,
        loadAndEnablePlugin pluginName store onError
          (mkResponses (Normal m) (Normal tt) randomChars evs) w
        = loadAndEnablePlugin_script pluginName store onError m
            (length (promises w))
            (run_until_settled store (length (promises w)) evs
               (snd (loadDynamicPlugin url m randomChars
                       (emit_many
                          [FetchPluginManifest url;
                           GetAllowedDynamicPluginNames;
                           ResolvePluginDependencies m
                             (semver_valid (releaseVersion SERVER_FLAGS))
                             allowed] w)))))
  /\ (forall m randomChars w',
        find_existing m (pluginMap w') = None ->
        document_head (snd (loadDynamicPlugin url m randomChars w'))
        = (document_head w'
             ++ [script_for (length (promises w')) url m randomChars])%list
        /\ script_src (script_for (length (promises w')) url m randomChars)
           = resolveURL url remoteEntryFile
               (set_search ("?cacheBuster=" ++ randomChars))).
Proof.
  intros url store. split; [reflexivity|]. split; [|split].
  - intros b Hb. subst url. rewrite Hb, append_assoc_string. reflexivity.
  - intros m randomChars evs. apply loadAndEnablePlugin_reaches_injection.
  - intros m randomChars w' Hf.
    now rewrite (loadDynamicPlugin_accepted _ _ _ _ Hf).
Qed.

(** ** C8: the record stays until the reset *)

(** C8.  Let the load of [m] pass the duplicate check, and let any events
    follow that are neither the reset nor a load whose identifier collides
    with that of [m]: script load errors, load events with or without the
    callback, entry callbacks that fail or succeed, other loads.  Then the map
    still holds the record of [m]; a script error or load event never changes
    the map; every further load of a manifest with that name is rejected; an
    activation that gets such a manifest ends, whatever events are waiting,
    in one [onError] call with the duplicate error and does not enable
    anything; and only after the reset does the duplicate check pass again. *)
Theorem registry_record_persists_until_reset
    (allowed : list string) (baseURL randomChars : string)
    (m : ConsolePluginManifestJSON) (evs : list Event) (w : World) :
  find_existing m (pluginMap w) = None ->
  forallb (keeps_record_of m) evs = true ->
  let store := recordingStore allowed in
  let w2 := run store evs (snd (loadDynamicPlugin baseURL m randomChars w)) in
  let duplicate m' :=
    Error ("Attempt to reload plugin " ++ getPluginID m ++ " with "
             ++ getPluginID m') in
  (exists d, map_get (getPluginID m) (pluginMap w2) = Some d /\ manifest d = m)
  /\ (forall script event,
        pluginMap (run_event store (ScriptFailed script event) w2) = pluginMap w2)
  /\ (forall script,
        pluginMap (run_event store (ScriptLoaded script) w2) = pluginMap w2)
  /\ (forall baseURL' m' randomChars',
        name m' = name m ->
        loadDynamicPlugin baseURL' m' randomChars' w2
        = (length (promises w2),
           with_promises (fun ps => (ps ++ [Rejected (duplicate m')])%list) w2))
  /\ (forall pluginName m' randomChars' evs',
        name m' = name m ->
        let attempted :=
          emit_many
            [FetchPluginManifest (plugin_manifest_url pluginName);
             GetAllowedDynamicPluginNames;
             ResolvePluginDependencies m'
               (semver_valid (releaseVersion SERVER_FLAGS)) allowed] w2 in
        loadAndEnablePlugin pluginName store recordingOnError
          (mkResponses (Normal m') (Normal tt) randomChars' evs') w2
        = (Returned,
           emit (OnError ("Failed to load entry script of plugin " ++ pluginName)
                   (duplicate m'))
             (with_promises (fun ps => (ps ++ [Rejected (duplicate m')])%list)
                attempted)))
  /\ (forall m', find_existing m'
                   (pluginMap (resetStateAndEnvForTestPurposes w2)) = None).
Proof.
  intros Hfresh Hquiet store w2 duplicate.
  assert (Hh : holds_record_of m (pluginMap w2)).
  { apply holds_record_run; [assumption|].
    rewrite (loadDynamicPlugin_accepted _ _ _ _ Hfresh). simpl.
    now apply holds_record_after_insert. }
  assert (Hretry : forall baseURL' m' randomChars' es,
            name m' = name m ->
            loadDynamicPlugin baseURL' m' randomChars' (emit_many es w2)
            = (length (promises w2),
               with_promises (fun ps => (ps ++ [Rejected (duplicate m')])%list)
                 (emit_many es w2))).
  { intros baseURL' m' randomChars' es Hn.
    destruct (holds_record_find m m' _ Hh Hn) as [d [Hf Hd]].
    rewrite (loadDynamicPlugin_rejected baseURL' m' randomChars'
               (emit_many es w2) d Hf).
    now rewrite Hd. }
  split; [exact (proj1 Hh)|].
  split.
  { intros script event. unfold run_event, script_onerror, perform. simpl.
    apply settle_frame. }
  split.
  { intros script. unfold run_event, script_onload.
    destruct (map_get (onload_pluginID script) (pluginMap w2)) as [d|];
      [|reflexivity].
    destruct (entryCallbackFired d); simpl; apply settle_frame. }
  split.
  { intros baseURL' m' randomChars' Hn.
    pose proof (Hretry baseURL' m' randomChars' [] Hn) as Hr.
    assert (Hw : emit_many [] w2 = w2).
    { unfold emit_many. rewrite app_nil_r. now destruct w2. }
    now rewrite Hw in Hr. }
  split.
  { intros pluginName m' randomChars' evs' Hn attempted.
    subst store. rewrite loadAndEnablePlugin_reaches_injection.
    fold attempted. unfold attempted at 1. rewrite (Hretry _ _ _ _ Hn).
    fold attempted. cbn [snd].
    change (length (promises w2)) with (length (promises attempted)).
    rewrite (run_until_settled_rejected _ _ _ _ (duplicate m'))
      by apply promise_state_snoc.
    unfold loadAndEnablePlugin_script.
    now rewrite promise_state_snoc. }
  intros m'. reflexivity.
Qed.

(** ** C7: the cache-busting token *)

Lemma append_cancel_l (a x y : string) : a ++ x = a ++ y -> x = y.
Proof.
  induction a as [|c a IH]; simpl; intros Heq; [assumption|].
  injection Heq as Heq. auto.
Qed.

Lemma length_append (x y : string) :
  String.length (x ++ y) = String.length x + String.length y.
Proof. induction x as [|c x IH]; simpl; auto. Qed.

Lemma append_cancel_r (h x y : string) : x ++ h = y ++ h -> x = y.
Proof.
  revert y. induction x as [|c x IH]; intros [|c' y] Heq; simpl in Heq.
  - reflexivity.
  - apply (f_equal String.length) in Heq. simpl in Heq.
    rewrite length_append in Heq. lia.
  - apply (f_equal String.length) in Heq. simpl in Heq.
    rewrite length_append in Heq. lia.
  - injection Heq as -> Heq. f_equal. auto.
Qed.

Lemma append_nil_r_string (x : string) : x ++ "" = x.
Proof. induction x as [|c x IH]; simpl; [reflexivity | now rewrite IH]. Qed.

Lemma has_char_append (c : ascii) (x y : string) :
  has_char c (x ++ y) = has_char c x || has_char c y.
Proof.
  induction x as [|c' x IH]; simpl; [reflexivity|].
  now rewrite IH, orb_assoc.
Qed.

(** Two strings that agree and are cut at the first occurrence of [c]. *)
Lemma split_at_first_char (c : ascii) (x1 x2 y1 y2 : string) :
  has_char c x1 = false -> has_char c x2 = false ->
  x1 ++ String c y1 = x2 ++ String c y2 -> x1 = x2 /\ y1 = y2.
Proof.
  revert x2. induction x1 as [|a x1 IH]; intros [|b x2]; simpl;
    intros H1 H2 Heq.
  - injection Heq as ->. auto.
  - injection Heq as <- _. now rewrite Ascii.eqb_refl in H2.
  - injection Heq as -> _. now rewrite Ascii.eqb_refl in H1.
  - injection Heq as -> Heq. apply orb_false_iff in H1 as [_ H1].
    apply orb_false_iff in H2 as [_ H2].
    destruct (IH x2 H1 H2 Heq) as [-> ->]. auto.
Qed.

Lemma hex_value_digit (n : nat) : n < 16 -> hex_value (hex_digit n) = n.
Proof.
  intros Hn. do 16 (destruct n as [|n]; [reflexivity|]). lia.
Qed.

Lemma hex_digit_not_hash (n : nat) : Ascii.eqb (hex_digit n) "#" = false.
Proof. do 15 (destruct n as [|n]; [reflexivity|]). reflexivity. Qed.

(** A byte is determined by its two hex digits. *)
Lemma hex_digits_injective (c1 c2 : ascii) :
  hex_digit (nat_of_ascii c1 / 16) = hex_digit (nat_of_ascii c2 / 16) ->
  hex_digit (nat_of_ascii c1 mod 16) = hex_digit (nat_of_ascii c2 mod 16) ->
  c1 = c2.
Proof.
  intros Hhigh Hlow.
  pose proof (nat_ascii_bounded c1) as B1.
  pose proof (nat_ascii_bounded c2) as B2.
  assert (Hh : nat_of_ascii c1 / 16 = nat_of_ascii c2 / 16).
  { rewrite <- (hex_value_digit (nat_of_ascii c1 / 16)),
      <- (hex_value_digit (nat_of_ascii c2 / 16)), Hhigh; [reflexivity| |];
      apply Nat.Div0.div_lt_upper_bound; lia. }
  assert (Hl : nat_of_ascii c1 mod 16 = nat_of_ascii c2 mod 16).
  { rewrite <- (hex_value_digit (nat_of_ascii c1 mod 16)),
      <- (hex_value_digit (nat_of_ascii c2 mod 16)), Hlow; [reflexivity| |];
      apply Nat.mod_upper_bound; lia. }
  rewrite <- (ascii_nat_embedding c1), <- (ascii_nat_embedding c2).
  f_equal.
  rewrite (Nat.div_mod_eq (nat_of_ascii c1) 16),
    (Nat.div_mod_eq (nat_of_ascii c2) 16). now rewrite Hh, Hl.
Qed.

Lemma encoded_set_has_hash (special : bool) (c : ascii) :
  in_query_percent_encode_set special c = false -> Ascii.eqb c "#" = false.
Proof.
  intros Hset. destruct (Ascii.eqb_spec c "#") as [->|]; [|reflexivity].
  now destruct special.
Qed.

(** The encoded query has no [#]. *)
Lemma percent_encode_query_no_hash (special : bool) (s : string) :
  has_char "#" (percent_encode_query special s) = false.
Proof.
  induction s as [|c s IH]; [reflexivity|]. cbn [percent_encode_query].
  destruct (is_tab_or_newline c); [assumption|].
  destruct (in_query_percent_encode_set special c) eqn:Hset;
    cbn [has_char].
  - now rewrite !hex_digit_not_hash, IH.
  - now rewrite (encoded_set_has_hash special c Hset), IH.
Qed.

(** Plain tokens are told apart by their encoded forms, also when one URL is
    special and the other is not. *)
Lemma percent_encode_query_plain_injective (special1 special2 : bool)
    (s1 s2 : string) :
  token_plain s1 = true -> token_plain s2 = true ->
  percent_encode_query special1 s1 = percent_encode_query special2 s2 ->
  s1 = s2.
Proof.
  revert s2. induction s1 as [|c1 s1 IH]; intros [|c2 s2] P1 P2 Heq.
  - reflexivity.
  - cbn [token_plain percent_encode_query] in *.
    apply andb_true_iff in P2 as [P2 _]. apply andb_true_iff in P2 as [_ T2].
    apply negb_true_iff in T2. rewrite T2 in Heq.
    now destruct (in_query_percent_encode_set special2 c2).
  - cbn [token_plain percent_encode_query] in *.
    apply andb_true_iff in P1 as [P1 _]. apply andb_true_iff in P1 as [_ T1].
    apply negb_true_iff in T1. rewrite T1 in Heq.
    now destruct (in_query_percent_encode_set special1 c1).
  - cbn [token_plain percent_encode_query] in *.
    apply andb_true_iff in P1 as [P1 R1]. apply andb_true_iff in P1 as [N1 T1].
    apply andb_true_iff in P2 as [P2 R2]. apply andb_true_iff in P2 as [N2 T2].
    apply negb_true_iff in T1, T2, N1, N2. rewrite T1, T2 in Heq.
    destruct (in_query_percent_encode_set special1 c1),
      (in_query_percent_encode_set special2 c2).
    + injection Heq as Hhigh Hlow Hrest.
      rewrite (hex_digits_injective c1 c2 Hhigh Hlow). f_equal. auto.
    + injection Heq as Hc _. rewrite <- Hc in N2. discriminate.
    + injection Heq as Hc _. rewrite Hc in N1. discriminate.
    + injection Heq as -> Hrest. f_equal. auto.
Qed.

Lemma percent_encode_query_cacheBuster (special : bool) (token : string) :
  percent_encode_query special ("cacheBuster=" ++ token)
  = "cacheBuster=" ++ percent_encode_query special token.
Proof. now destruct special. Qed.

(** Queries without [#] are recovered from what follows the [?]. *)
Lemma query_before_fragment (q1 q2 : string) (f1 f2 : option string) :
  has_char "#" q1 = false -> has_char "#" q2 = false ->
  q1 ++ fragment_text f1 = q2 ++ fragment_text f2 -> q1 = q2.
Proof.
  intros H1 H2 Heq. destruct f1 as [f1|], f2 as [f2|]; cbn [fragment_text] in Heq.
  - now destruct (split_at_first_char "#" q1 q2 f1 f2 H1 H2 Heq).
  - rewrite append_nil_r_string in Heq. subst q2.
    rewrite has_char_append in H2. cbn [has_char] in H2.
    rewrite Ascii.eqb_refl, orb_true_r in H2. discriminate.
  - rewrite append_nil_r_string in Heq. subst q1.
    rewrite has_char_append in H1. cbn [has_char] in H1.
    rewrite Ascii.eqb_refl, orb_true_r in H1. discriminate.
  - now rewrite !append_nil_r_string in Heq.
Qed.

(** The address of the script built by [loadDynamicPlugin]. *)
Lemma script_src_serialised p baseURL m randomChars :
  script_src (script_for p baseURL m randomChars)
  = url_before_query (new_URL remoteEntryFile baseURL)
      ++ String "?"
           (("cacheBuster="
               ++ percent_encode_query
                    (url_special (new_URL remoteEntryFile baseURL)) randomChars)
              ++ fragment_text (url_fragment (new_URL remoteEntryFile baseURL))).
Proof.
  cbn [script_src script_for]. unfold resolveURL, URL_toString, set_search.
  cbn [url_before_query url_query url_fragment url_special].
  now destruct (url_special (new_URL remoteEntryFile baseURL)).
Qed.

(** C7 as the code has it.  A load that passes the duplicate check appends one
    script whose address is the entry file resolved against the base URL with
    the query set to [cacheBuster=] followed by what [getRandomChars]
    returned on that call, as the URL encodes it.  Take any two such calls,
    with any base URLs and manifests.  If the two tokens are distinct and plain
    (no [%], tab or newline, under which distinct tokens can be carried the
    same way), the two addresses are distinct, provided the part that the
    parser puts before the query has no [?], as in every serialised URL; for
    one and the same base URL this needs no proviso, and there the addresses
    of plain tokens are equal exactly when the tokens are.  Equal tokens and
    equal base URLs give equal addresses: nothing in the loader makes the
    tokens differ. *)
Theorem cache_buster_distinct_for_plain_tokens
    (baseURL1 baseURL2 : string) (m1 m2 : ConsolePluginManifestJSON)
    (randomChars1 randomChars2 : string) (w1 w2 : World) :
  find_existing m1 (pluginMap w1) = None ->
  find_existing m2 (pluginMap w2) = None ->
  let url1 := new_URL remoteEntryFile baseURL1 in
  let url2 := new_URL remoteEntryFile baseURL2 in
  let script1 := script_for (length (promises w1)) baseURL1 m1 randomChars1 in
  let script2 := script_for (length (promises w2)) baseURL2 m2 randomChars2 in
  document_head (snd (loadDynamicPlugin baseURL1 m1 randomChars1 w1))
  = (document_head w1 ++ [script1])%list
  /\ document_head (snd (loadDynamicPlugin baseURL2 m2 randomChars2 w2))
     = (document_head w2 ++ [script2])%list
  /\ script_src script1
     = url_before_query url1
         ++ "?cacheBuster="
         ++ percent_encode_query (url_special url1) randomChars1
         ++ fragment_text (url_fragment url1)
  /\ (has_char "?" (url_before_query url1) = false ->
      has_char "?" (url_before_query url2) = false ->
      token_plain randomChars1 = true ->
      token_plain randomChars2 = true ->
      randomChars1 <> randomChars2 ->
      script_src script1 <> script_src script2)
  /\ (baseURL1 = baseURL2 ->
      token_plain randomChars1 = true ->
      token_plain randomChars2 = true ->
      (script_src script1 = script_src script2
       <-> randomChars1 = randomChars2))
  /\ (baseURL1 = baseURL2 -> randomChars1 = randomChars2 ->
      script_src script1 = script_src script2).
Proof.
  intros Hf1 Hf2 url1 url2 script1 script2.
  rewrite (loadDynamicPlugin_accepted _ _ _ _ Hf1),
    (loadDynamicPlugin_accepted _ _ _ _ Hf2).
  subst script1 script2. rewrite !script_src_serialised. fold url1 url2.
  split; [reflexivity|]. split; [reflexivity|].
  split; [reflexivity|].
  split; [|split].
  - intros Hq1 Hq2 P1 P2 Hne Heq. apply Hne.
    apply split_at_first_char in Heq as [_ Heq]; [|assumption|assumption].
    rewrite !append_assoc_string in Heq. apply append_cancel_l in Heq.
    apply query_before_fragment in Heq;
      [|apply percent_encode_query_no_hash|apply percent_encode_query_no_hash].
    now apply percent_encode_query_plain_injective in Heq.
  - intros Hbase P1 P2. subst url1 url2. rewrite <- Hbase. split.
    + intros Heq. apply append_cancel_l in Heq. injection Heq as Heq.
      apply append_cancel_r in Heq.
      now apply percent_encode_query_plain_injective in Heq.
    + now intros ->.
  - intros Hbase Htoken. subst url1 url2. now rewrite Hbase, Htoken.
Qed.

End LoaderFacts.

(** * The theorems at concrete inputs *)

Lemma loadDynamicPlugin_duplicate_rejected_witness :
  let w2 :=
    @run reference_imports sample_store
      [ScriptFailed foo_script "error";
       CallLoadDynamicPlugin "/api/plugins/bar/" bar_1 "qrstuv"] foo_loading in
  let second :=
    @loadDynamicPlugin reference_imports "/api/plugins/foo/" foo_2 "ghijkl" w2 in
  promise_state (fst second) (snd second)
  = Some (Rejected (Error "Attempt to reload plugin foo@1.0.0 with foo@2.0.0"))
  /\ pluginMap (snd second) = pluginMap w2
  /\ document_head (snd second) = document_head w2.
Proof.
  intros w2 second.
  destruct (@loadDynamicPlugin_duplicate_rejected reference_imports
              ["foo"; "bar"] "/api/plugins/foo/" "/api/plugins/foo/"
              "abcdef" "ghijkl" foo_1 foo_2
              [ScriptFailed foo_script "error";
               CallLoadDynamicPlugin "/api/plugins/bar/" bar_1 "qrstuv"]
              initial_world eq_refl eq_refl eq_refl)
    as (Hp & Hmap & Hdoc & _).
  exact (conj Hp (conj Hmap Hdoc)).
Defined.

Lemma loadAndEnablePlugin_stops_at_first_failure_witness :
  let env :=
    mkResponses (Normal foo_1) (Normal tt) "abcdef"
      [ScriptFailed foo_script "error"] in
  let result :=
    @loadAndEnablePlugin reference_imports "foo" sample_store recordingOnError
      env initial_world in
  fst result = Returned
  /\ pipeline_effects (snd result)
     = [FetchPluginManifest "/api/plugins/foo/";
        GetAllowedDynamicPluginNames;
        ResolvePluginDependencies foo_1 (Some "4.14.0") ["foo"; "bar"];
        OnError "Failed to load entry script of plugin foo"
          (ErrorWithCause
             "Error while loading plugin entry script from /api/plugins/foo/plugin-entry.js?cacheBuster=abcdef"
             "error")].
Proof.
  intros env result.
  destruct (@loadAndEnablePlugin_stops_at_first_failure reference_imports
              ["foo"; "bar"] "foo" initial_world) as (_ & _ & Hscript & _).
  destruct (Hscript foo_1
              (ErrorWithCause
                 "Error while loading plugin entry script from /api/plugins/foo/plugin-entry.js?cacheBuster=abcdef"
                 "error")
              "abcdef" [ScriptFailed foo_script "error"] eq_refl)
    as [Hreturn Heffects].
  subst result env. unfold sample_store. rewrite Hreturn.
  split; [reflexivity | exact Heffects].
Defined.

Lemma entry_callback_fires_once_witness :
  let first := PluginEntry "foo@1.0.0" sample_module None [sample_extension] 0 in
  let second := PluginEntry "foo@1.0.0" sample_module None [sample_extension] 0 in
  effects (@run reference_imports sample_store [first; second] foo_loading)
  = [ConsoleInfo "Loading entry script for plugin foo@1.0.0";
     AddDynamicPlugin "foo@1.0.0" foo_1 [sample_extension];
     ConsoleError "Received callback for already loaded plugin foo@1.0.0" None].
Proof.
  intros first second.
  destruct (@entry_callback_fires_once reference_imports sample_store
              (init_with_outcome None)
              (resolver_with_outcome [sample_extension] 0)
              "foo@1.0.0" sample_module
              {| manifest := foo_1; entryCallbackFired := false |}
              foo_loading eq_refl eq_refl) as (_ & _ & _ & Htwice).
  pose proof (Htwice ["foo"; "bar"] sample_module None [sample_extension] 0
                sample_module None [sample_extension] 0) as Hrun.
  cbv zeta in Hrun. subst first second. unfold sample_store.
  rewrite Hrun. reflexivity.
Defined.

Lemma script_onload_resolves_iff_callback_fired_witness :
  promise_state 0 (snd (script_onload foo_script foo_entered))
  = Some (Fulfilled "foo@1.0.0")
  /\ promise_state 0 (snd (script_onload foo_script foo_loading))
     = Some (Rejected
               (Error "Entry script for plugin foo@1.0.0 loaded without callback")).
Proof.
  split.
  - apply (proj2 (proj1 (proj2
            (@script_onload_resolves_iff_callback_fired reference_imports 0
               "/api/plugins/foo/" "abcdef" foo_1
               {| manifest := foo_1; entryCallbackFired := true |}
               foo_entered eq_refl eq_refl)))).
    reflexivity.
  - apply (proj2 (proj1 (proj2 (proj2
            (@script_onload_resolves_iff_callback_fired reference_imports 0
               "/api/plugins/foo/" "abcdef" foo_1
               {| manifest := foo_1; entryCallbackFired := false |}
               foo_loading eq_refl eq_refl))))).
    reflexivity.
Defined.

Lemma entry_callback_init_failure_still_resolves_witness :
  let failing := init_with_outcome (Some (Error "no shared scope")) in
  let after :=
    snd (getPluginEntryCallback sample_store failing
           (resolver_with_outcome [sample_extension] 0)
           "foo@1.0.0" sample_module foo_loading) in
  effects after
  = [ConsoleInfo "Loading entry script for plugin foo@1.0.0";
     ConsoleError "Failed to initialize shared modules for plugin foo@1.0.0"
       (Some (Error "no shared scope"))]
  /\ promise_state 0 (snd (script_onload foo_script after))
     = Some (Fulfilled "foo@1.0.0").
Proof.
  intros failing after.
  destruct (entry_callback_init_failure_still_resolves
              sample_store failing
              (resolver_with_outcome [sample_extension] 0)
              "foo@1.0.0" sample_module
              {| manifest := foo_1; entryCallbackFired := false |}
              (Error "no shared scope") foo_script foo_loading
              (mark_entryCallbackFired "foo@1.0.0"
                 {| manifest := foo_1; entryCallbackFired := false |}
                 foo_loading)
              eq_refl eq_refl eq_refl eq_refl eq_refl eq_refl)
    as (_ & Hcall & _ & _ & _ & Hpromise).
  subst after. rewrite Hcall. split; [reflexivity | exact Hpromise].
Defined.

Lemma entry_callback_unknown_plugin_noop_witness :
  getPluginEntryCallback sample_store (init_with_outcome None)
    (resolver_with_outcome [] 0) "ghost@0.0.1" sample_module foo_loading
  = (Normal tt,
     emit (ConsoleError "Received callback for unknown plugin ghost@0.0.1" None)
       foo_loading).
Proof.
  destruct (entry_callback_unknown_plugin_noop sample_store
              (init_with_outcome None) (resolver_with_outcome [] 0)
              "ghost@0.0.1" sample_module foo_loading eq_refl)
    as (Hfst & Hsnd & _).
  rewrite (surjective_pairing
             (getPluginEntryCallback sample_store (init_with_outcome None)
                (resolver_with_outcome [] 0) "ghost@0.0.1" sample_module
                foo_loading)).
  cbv zeta in Hfst, Hsnd. rewrite Hfst, Hsnd. reflexivity.
Defined.

Lemma cache_buster_distinct_for_plain_tokens_witness :
  script_src (@script_for reference_imports 0 "/api/plugins/foo/" foo_1 "abcdef")
  <> script_src (@script_for reference_imports 1 "/api/plugins/bar/" bar_1
                   "ghijkl")
  /\ script_src (@script_for reference_imports 0 "/api/plugins/foo/" foo_1 "a b")
     = "/api/plugins/foo/plugin-entry.js?cacheBuster=a%20b".
Proof.
  destruct (@cache_buster_distinct_for_plain_tokens reference_imports
              "/api/plugins/foo/" "/api/plugins/bar/" foo_1 bar_1
              "abcdef" "ghijkl" initial_world foo_loading eq_refl eq_refl)
    as (_ & _ & _ & Hdistinct & _).
  split.
  - apply Hdistinct; try reflexivity. discriminate.
  - exact (proj1 (proj2 (proj2
             (@cache_buster_distinct_for_plain_tokens reference_imports
                "/api/plugins/foo/" "/api/plugins/foo/" foo_1 foo_1
                "a b" "a b" initial_world initial_world eq_refl eq_refl)))).
Defined.

Lemma registry_record_persists_until_reset_witness :
  let w2 :=
    @run reference_imports sample_store
      [ScriptFailed foo_script "error";
       ScriptLoaded foo_script;
       PluginEntry "foo@1.0.0" sample_module (Some (Error "no shared scope"))
         [] 0;
       CallLoadDynamicPlugin "/api/plugins/bar/" bar_1 "qrstuv"] foo_loading in
  map_has "foo@1.0.0" (pluginMap w2) = true
  /\ promise_state 2
       (snd (@loadDynamicPlugin reference_imports "/api/plugins/foo/" foo_2
               "ghijkl" w2))
     = Some (Rejected (Error "Attempt to reload plugin foo@1.0.0 with foo@2.0.0")).
Proof.
  intros w2.
  destruct (@registry_record_persists_until_reset reference_imports
              ["foo"; "bar"] "/api/plugins/foo/" "abcdef" foo_1
              [ScriptFailed foo_script "error";
               ScriptLoaded foo_script;
               PluginEntry "foo@1.0.0" sample_module
                 (Some (Error "no shared scope")) [] 0;
               CallLoadDynamicPlugin "/api/plugins/bar/" bar_1 "qrstuv"]
              initial_world eq_refl eq_refl)
    as ((d & Hd & _) & _ & _ & Hretry & _).
  split.
  - apply map_has_get. exists d. exact Hd.
  - fold foo_loading in Hretry. unfold sample_store in w2. fold w2 in Hretry.
    rewrite (Hretry "/api/plugins/foo/" foo_2 "ghijkl" eq_refl).
    reflexivity.
Defined.

Lemma loadAndEnablePlugin_fetch_url_is_base_url_witness :
  @loadAndEnablePlugin_begin reference_imports "foo" initial_world
  = (AwaitManifest "/api/plugins/foo/",
     emit (FetchPluginManifest "/api/plugins/foo/") initial_world)
  /\ @plugin_manifest_url reference_imports "foo" = "/api/plugins/foo/"
  /\ document_head foo_loading = [foo_script].
Proof.
  destruct (@loadAndEnablePlugin_fetch_url_is_base_url reference_imports
              ["foo"; "bar"] "foo" recordingOnError initial_world)
    as (Hbegin & Hslash & _ & Hscript).
  split; [exact Hbegin|]. split; [exact (Hslash "" eq_refl)|].
  exact (proj1 (Hscript foo_1 "abcdef" initial_world eq_refl)).
Defined.

Lemma script_onload_needs_record_witness :
  script_onload foo_script (resetStateAndEnvForTestPurposes foo_loading)
  = (Throw (TypeError
              "Cannot read properties of undefined (reading 'entryCallbackFired')"),
     resetStateAndEnvForTestPurposes foo_loading)
  /\ fst (script_onload foo_script foo_loading) = Normal tt.
Proof.
  destruct (@script_onload_needs_record reference_imports 0 "/api/plugins/foo/"
              "abcdef" foo_1 (resetStateAndEnvForTestPurposes foo_loading))
    as (_ & Habsent & _).
  split; [exact (Habsent eq_refl)|].
  exact (proj1 (@script_onload_needs_record reference_imports 0
                  "/api/plugins/foo/" "abcdef" foo_1 foo_loading)).
Defined.

(** C7 as stated does not hold: nothing makes the tokens differ.  When
    [getRandomChars] returns the same characters on two calls, the two scripts
    get the same address, be it for the same manifest loaded again after a
    reset or for another manifest loaded from the same base URL; two tokens
    that differ only in how a byte is written ([a b] and [a%20b]) give the
    same address as well; and a call that the duplicate check rejects builds
    no address at all. *)
Lemma cache_buster_token_can_repeat :
  let load := @loadDynamicPlugin reference_imports in
  let address := "/api/plugins/foo/plugin-entry.js?cacheBuster=abcdef" in
  let again :=
    snd (load "/api/plugins/foo/" foo_1 "abcdef"
           (resetStateAndEnvForTestPurposes foo_loading)) in
  let other := snd (load "/api/plugins/foo/" bar_1 "abcdef" foo_loading) in
  let refused := snd (load "/api/plugins/foo/" foo_2 "ghijkl" foo_loading) in
  let spaced := snd (load "/api/plugins/foo/" foo_1 "a b" initial_world) in
  let escaped := snd (load "/api/plugins/foo/" foo_1 "a%20b" initial_world) in
  List.map script_src (document_head foo_loading) = [address]
  /\ List.map script_src (document_head again) = [address]
  /\ List.map script_src (document_head other) = [address; address]
  /\ document_head refused = document_head foo_loading
  /\ List.map script_src (document_head spaced)
     = List.map script_src (document_head escaped).
Proof.
  cbv zeta. do 4 (split; [vm_compute; reflexivity|]).
  vm_compute. reflexivity.
Qed.

(** The condition on the events in C1 and C8 is needed only where
    [getPluginID] maps manifests with different names to one identifier: the
    second load passes the duplicate check and [pluginMap.set] replaces the
    record of the first. *)
Example identifier_clash_replaces_record :
  let a := {| name := "a@1"; version := "0"; extensions := [] |} in
  let b := {| name := "a"; version := "1@0"; extensions := [] |} in
  let load := @loadDynamicPlugin reference_imports in
  let w1 := snd (load "/api/plugins/a@1/" a "abcdef" initial_world) in
  let w2 := snd (load "/api/plugins/a/" b "ghijkl" w1) in
  map_get "a@1@0" (pluginMap w1)
  = Some {| manifest := a; entryCallbackFired := false |}
  /\ map_get "a@1@0" (pluginMap w2)
     = Some {| manifest := b; entryCallbackFired := false |}.
Proof. split; reflexivity. Qed.

(** A complete activation: the bundle calls back while the script is pending,
    the load event fulfils the promise, and the store sees [addDynamicPlugin]
    followed by [setDynamicPluginEnabled]; [onError] is not called. *)
Example activation_succeeds :
  let env :=
    mkResponses (Normal foo_1) (Normal tt) "abcdef"
      [PluginEntry "foo@1.0.0" sample_module None [sample_extension] 0;
       ScriptLoaded foo_script] in
  let result :=
    @loadAndEnablePlugin reference_imports "foo" sample_store recordingOnError
      env initial_world in
  fst result = Returned
  /\ effects (snd result)
     = [FetchPluginManifest "/api/plugins/foo/";
        GetAllowedDynamicPluginNames;
        ResolvePluginDependencies foo_1 (Some "4.14.0") ["foo"; "bar"];
        ConsoleInfo "Loading entry script for plugin foo@1.0.0";
        AddDynamicPlugin "foo@1.0.0" foo_1 [sample_extension];
        SetDynamicPluginEnabled "foo@1.0.0" true]
  /\ promise_state 0 (snd result) = Some (Fulfilled "foo@1.0.0").
Proof. repeat split. Qed.

(** While the script is still loading the activation stays suspended. *)
Example activation_waits_for_script :
  let env := mkResponses (Normal foo_1) (Normal tt) "abcdef" [] in
  fst (@loadAndEnablePlugin reference_imports "foo" sample_store
         recordingOnError env initial_world)
  = AwaitScript foo_1 0.
Proof. reflexivity. Qed.

(** * Further properties of the loader *)

(** ** More on the map *)

Section JsMapMore.
Context {V : Type}.
Implicit Types (m : JsMap V) (k : string) (v : V).

Lemma map_get_None_keys k m : map_get k m = None <-> ~ In k (List.map fst m).
Proof.
  induction m as [|[k' v'] rest IH]; simpl; [tauto|].
  destruct (String.eqb_spec k' k) as [->|Hk].
  - split; [discriminate | intros Hn; exfalso; apply Hn; now left].
  - rewrite IH. tauto.
Qed.

Lemma map_set_absent k v m :
  map_get k m = None -> map_set k v m = (m ++ [(k, v)])%list.
Proof.
  induction m as [|[k' v'] rest IH]; simpl; [reflexivity|].
  destruct (String.eqb k' k); [discriminate|].
  intros Hg. now rewrite IH.
Qed.

Lemma map_set_present_keys k v d m :
  map_get k m = Some d -> List.map fst (map_set k v m) = List.map fst m.
Proof.
  induction m as [|[k' v'] rest IH]; simpl; [discriminate|].
  destruct (String.eqb k' k) eqn:E; simpl; [reflexivity|].
  intros Hg. now rewrite IH.
Qed.

Lemma map_set_present_length k v d m :
  map_get k m = Some d -> length (map_set k v m) = length m.
Proof.
  intros Hg. rewrite <- (length_map fst), (map_set_present_keys k v d m Hg).
  apply length_map.
Qed.

(** Replacing a value by one with the same image leaves the images alone. *)
Lemma map_set_present_image {B} (g : V -> B) k v d m :
  map_get k m = Some d -> g v = g d ->
  List.map (fun kd => g (snd kd)) (map_set k v m)
  = List.map (fun kd => g (snd kd)) m.
Proof.
  induction m as [|[k' v'] rest IH]; simpl; [discriminate|].
  destruct (String.eqb k' k) eqn:E; simpl.
  - intros [= ->] Hg. now rewrite Hg.
  - intros Hg Hv. now rewrite IH.
Qed.

(** Storing a value with a new image keeps the images distinct, whether the
    key is new or taken. *)
Lemma map_set_NoDup_image {B} (g : V -> B) k v m :
  List.NoDup (List.map (fun kd => g (snd kd)) m) ->
  ~ In (g v) (List.map (fun kd => g (snd kd)) m) ->
  List.NoDup (List.map (fun kd => g (snd kd)) (map_set k v m)).
Proof.
  induction m as [|[k' v'] rest IH]; simpl; intros Hnd Hnew.
  - constructor; [intros [] | constructor].
  - apply List.NoDup_cons_iff in Hnd as [Hv' Hrest].
    destruct (String.eqb k' k); simpl.
    + constructor; [tauto | assumption].
    + constructor; [|apply IH; tauto].
      intros Hin. apply in_map_iff in Hin as [[k0 v0] [Hg Hin]].
      simpl in Hg. apply In_map_set in Hin as [[_ ->]|Hin].
      * apply Hnew. left. congruence.
      * apply Hv'. apply in_map_iff. exists (k0, v0). auto.
Qed.

Lemma NoDup_image_injective {B} (g : V -> B) m k1 v1 k2 v2 :
  List.NoDup (List.map fst m) ->
  List.NoDup (List.map (fun kd => g (snd kd)) m) ->
  In (k1, v1) m -> In (k2, v2) m -> g v1 = g v2 -> k1 = k2 /\ v1 = v2.
Proof.
  induction m as [|[k' v'] rest IH]; simpl; [tauto|].
  intros Hk Hg. apply List.NoDup_cons_iff in Hk as [_ Hk].
  apply List.NoDup_cons_iff in Hg as [Hnew Hg].
  intros [E1|In1] [E2|In2] Heq.
  - split; congruence.
  - exfalso. apply Hnew. apply in_map_iff. exists (k2, v2).
    split; [simpl; congruence | assumption].
  - exfalso. apply Hnew. apply in_map_iff. exists (k1, v1).
    split; [simpl; congruence | assumption].
  - now apply IH.
Qed.

End JsMapMore.

Lemma filter_idempotent {A} (f : A -> bool) (l : list A) :
  List.filter f (List.filter f l) = List.filter f l.
Proof.
  induction l as [|x l IH]; simpl; [reflexivity|].
  destruct (f x) eqn:E; simpl; [rewrite E; now f_equal | assumption].
Qed.

Lemma prefix_append (a b : string) : String.prefix a (a ++ b) = true.
Proof.
  induction a as [|c a IH]; simpl; [now destruct b|].
  now destruct (Ascii.ascii_dec c c).
Qed.

Section LoaderInvariantFacts.
Context `{Imports}.

(** ** Induction over the events *)

Lemma run_cons store ev evs w :
  run store (ev :: evs) w = run store evs (run_event store ev w).
Proof. reflexivity. Qed.

Lemma run_preserves (P : World -> Prop) (ok : Event -> bool) store evs w :
  (forall ev w', ok ev = true -> P w' -> P (run_event store ev w')) ->
  forallb ok evs = true -> P w -> P (run store evs w).
Proof.
  intros Hstep. revert w. induction evs as [|ev evs IH]; intros w Hok Hw;
    [assumption|].
  simpl in Hok. apply andb_true_iff in Hok as [Hev Hevs].
  rewrite run_cons. apply IH; auto.
Qed.

Lemma run_preserves_always (P : World -> Prop) store evs w :
  (forall ev w', P w' -> P (run_event store ev w')) ->
  P w -> P (run store evs w).
Proof.
  intros Hstep Hw.
  apply (run_preserves P (fun _ => true)); auto.
  now induction evs.
Qed.

(** ** What each event leaves alone *)

Lemma script_onload_frame script w :
  pluginMap (snd (script_onload script w)) = pluginMap w
  /\ document_head (snd (script_onload script w)) = document_head w
  /\ effects (snd (script_onload script w)) = effects w.
Proof.
  unfold script_onload.
  destruct (map_get (onload_pluginID script) (pluginMap w)) as [d|];
    [|simpl; auto].
  destruct (entryCallbackFired d); simpl;
    match goal with
    | |- context [settle ?p ?s w] =>
        destruct (settle_frame p s w) as (-> & -> & _ & ->)
    end; auto.
Qed.

Lemma script_onerror_frame script event w :
  pluginMap (snd (script_onerror script event w)) = pluginMap w
  /\ document_head (snd (script_onerror script event w)) = document_head w
  /\ effects (snd (script_onerror script event w)) = effects w.
Proof.
  unfold script_onerror, perform. cbn [snd].
  match goal with
  | |- context [settle ?p ?s w] =>
      destruct (settle_frame p s w) as (-> & -> & _ & ->)
  end; auto.
Qed.

Lemma PluginEntry_frame allowed pluginID entryModule initFailure resolved
    unresolved w :
  let w' :=
    run_event (recordingStore allowed)
      (PluginEntry pluginID entryModule initFailure resolved unresolved) w in
  document_head w' = document_head w
  /\ promises w' = promises w
  /\ (pluginMap w' = pluginMap w
      \/ exists d,
           map_get pluginID (pluginMap w) = Some d
           /\ entryCallbackFired d = false
           /\ pluginMap w'
              = map_set pluginID
                  {| manifest := manifest d; entryCallbackFired := true |}
                  (pluginMap w)).
Proof.
  intros w'. subst w'. rewrite run_event_PluginEntry.
  destruct (map_get pluginID (pluginMap w)) as [d|] eqn:Hg; [|simpl; auto].
  destruct (entryCallbackFired d) eqn:Hfired; [simpl; auto|].
  destruct initFailure; simpl; repeat split; right; exists d; auto.
Qed.

(** ** The registry stays well formed *)

Lemma registry_well_formed_insert m pm :
  find_existing m pm = None ->
  registry_well_formed pm ->
  registry_well_formed
    (map_set (getPluginID m) {| manifest := m; entryCallbackFired := false |} pm).
Proof.
  intros Hf (Hids & Hkeys & Hnames). repeat split.
  - intros k d Hin. apply In_map_set in Hin as [[-> ->]|Hin]; auto.
  - unfold registry_keys.
    destruct (map_get (getPluginID m) pm) as [d|] eqn:Hg.
    + now rewrite (map_set_present_keys _ _ d pm Hg).
    + rewrite (map_set_absent _ _ pm Hg), List.map_app. simpl.
      apply List.NoDup_app; [assumption | repeat constructor; intros [] |].
      intros k Hin [<-|[]]. now apply map_get_None_keys in Hg.
  - apply (map_set_NoDup_image (fun d => name (manifest d))); [assumption|].
    intros Hin. apply in_map_iff in Hin as [[k d] [Hn Hin]]. simpl in Hn.
    now apply (find_existing_None_inv m pm k d Hf Hin).
Qed.

Lemma registry_well_formed_mark pluginID d pm :
  map_get pluginID pm = Some d ->
  registry_well_formed pm ->
  registry_well_formed
    (map_set pluginID
       {| manifest := manifest d; entryCallbackFired := true |} pm).
Proof.
  intros Hg (Hids & Hkeys & Hnames). repeat split.
  - intros k d' Hin. apply In_map_set in Hin as [[-> ->]|Hin]; auto.
    simpl. apply Hids. now apply map_get_In.
  - unfold registry_keys. now rewrite (map_set_present_keys _ _ d pm Hg).
  - unfold registry_names.
    now rewrite (map_set_present_image (fun d => name (manifest d)) _ _ d pm Hg).
Qed.

Lemma registry_well_formed_run_event allowed ev w :
  registry_well_formed (pluginMap w) ->
  registry_well_formed (pluginMap (run_event (recordingStore allowed) ev w)).
Proof.
  intros Hwf.
  destruct ev as [baseURL m randomChars|script|script event
                 |pluginID entryModule initFailure resolved unresolved|].
  - unfold run_event.
    destruct (find_existing m (pluginMap w)) as [existing|] eqn:Hf.
    + now rewrite (loadDynamicPlugin_rejected _ _ _ _ _ Hf).
    + rewrite (loadDynamicPlugin_accepted _ _ _ _ Hf). simpl.
      now apply registry_well_formed_insert.
  - unfold run_event. now rewrite (proj1 (script_onload_frame script w)).
  - unfold run_event. now rewrite (proj1 (script_onerror_frame script event w)).
  - destruct (PluginEntry_frame allowed pluginID entryModule initFailure
                resolved unresolved w) as (_ & _ & [->|(d & Hg & _ & ->)]);
      [assumption | now apply registry_well_formed_mark].
  - repeat split; [intros k d [] | constructor | constructor].
Qed.

(** In every state the loader can reach from the start, through any loads,
    script events, entry callbacks and resets, each key of [pluginMap] is the
    identifier of the manifest stored under it, and no two records carry the
    same plugin name. *)
Theorem registry_has_one_record_per_name
    (allowed : list string) (evs : list Event) :
  let pm := pluginMap (run (recordingStore allowed) evs initial_world) in
  registry_well_formed pm
  /\ (forall k1 d1 k2 d2,
        In (k1, d1) pm -> In (k2, d2) pm ->
        name (manifest d1) = name (manifest d2) -> k1 = k2 /\ d1 = d2)
  /\ (forall k d, map_get k pm = Some d -> k = getPluginID (manifest d)).
Proof.
  intros pm.
  assert (Hwf : registry_well_formed pm).
  { subst pm.
    apply (run_preserves_always
             (fun w => registry_well_formed (pluginMap w))).
    - intros ev w'. apply registry_well_formed_run_event.
    - repeat split; [intros k d [] | constructor | constructor]. }
  split; [exact Hwf|]. destruct Hwf as (Hids & Hkeys & Hnames). split.
  - intros k1 d1 k2 d2 In1 In2 Hn.
    now apply (NoDup_image_injective (fun d => name (manifest d)) pm k1 d1 k2 d2).
  - intros k d Hg. apply Hids. now apply map_get_In.
Qed.

(** ** Records and their script elements *)

Lemma records_have_scripts_run_event allowed ev w :
  records_have_scripts w ->
  records_have_scripts (run_event (recordingStore allowed) ev w).
Proof.
  intros Hrs.
  destruct ev as [baseURL m randomChars|script|script event
                 |pluginID entryModule initFailure resolved unresolved|].
  - unfold run_event.
    destruct (find_existing m (pluginMap w)) as [existing|] eqn:Hf.
    + rewrite (loadDynamicPlugin_rejected _ _ _ _ _ Hf). exact Hrs.
    + rewrite (loadDynamicPlugin_accepted _ _ _ _ Hf).
      intros k d Hin. simpl in Hin. apply In_map_set in Hin as [[-> ->]|Hin].
      * exists (script_for (length (promises w)) baseURL m randomChars).
        simpl. split; [apply in_or_app; right; now left | auto].
      * destruct (Hrs k d Hin) as (s & Hs & Hid & Hk).
        exists s. simpl. split; [apply in_or_app; now left | auto].
  - unfold run_event. intros k d.
    destruct (script_onload_frame script w) as (-> & -> & _). apply Hrs.
  - unfold run_event. intros k d.
    destruct (script_onerror_frame script event w) as (-> & -> & _). apply Hrs.
  - intros k d.
    destruct (PluginEntry_frame allowed pluginID entryModule initFailure
                resolved unresolved w) as (-> & _ & [->|(d0 & Hg & _ & ->)]);
      [apply Hrs|].
    intros Hin. apply In_map_set in Hin as [[-> ->]|Hin]; [|now apply Hrs].
    apply (Hrs pluginID d0). now apply map_get_In.
  - intros k d [].
Qed.

(** In every state the loader can reach from the start, each record of
    [pluginMap] has its script element in the document: an element whose id
    is built from the record's plugin name and whose load handler looks up
    the record's key. *)
Theorem every_record_has_its_script
    (allowed : list string) (evs : list Event) (k : string)
    (d : ConsolePluginData) :
  let w := run (recordingStore allowed) evs initial_world in
  In (k, d) (pluginMap w) ->
  exists script,
    In script (document_head w)
    /\ script_id script = "console-plugin-" ++ name (manifest d)
    /\ onload_pluginID script = k.
Proof.
  intros w.
  assert (Hrs : records_have_scripts w).
  { subst w. apply (run_preserves_always records_have_scripts).
    - intros ev w'. apply records_have_scripts_run_event.
    - intros k' d' []. }
  intros Hin. destruct (Hrs k d Hin) as (s & Hs & Hid & Hk).
  exists s. repeat split; assumption.
Qed.

(** ** Script element ids and the reset *)

(** The id of the script element is the prefix, a dash and the plugin name:
    two manifests get the same element id exactly when they have the same
    name, whatever their versions, and every such id matches the selector
    [[id^="console-plugin"]] that the reset uses. *)
Theorem script_element_id_follows_name (m1 m2 : ConsolePluginManifestJSON) :
  (getScriptElementID m1 = getScriptElementID m2 <-> name m1 = name m2)
  /\ String.prefix scriptIDPrefix (getScriptElementID m1) = true
  /\ (forall p baseURL randomChars,
        script_id (script_for p baseURL m1 randomChars) = getScriptElementID m1).
Proof.
  split; [|split; [apply prefix_append | reflexivity]].
  unfold getScriptElementID. split.
  - intros Heq. apply append_cancel_l in Heq. now apply append_cancel_l in Heq.
  - now intros ->.
Qed.

(** The reset empties the map, unsets the hook and removes from the document
    exactly the elements whose id starts with the prefix, so no script built
    by [loadDynamicPlugin] survives it; promises and recorded effects are not
    touched (a promise that was pending stays pending), and a second reset
    changes nothing. *)
Theorem reset_clears_map_and_scripts (w : World) :
  let w' := resetStateAndEnvForTestPurposes w in
  pluginMap w' = []
  /\ loadPluginEntry_bound w' = false
  /\ promises w' = promises w
  /\ effects w' = effects w
  /\ (forall element,
        In element (document_head w')
        <-> In element (document_head w)
            /\ String.prefix scriptIDPrefix (script_id element) = false)
  /\ (forall p baseURL m randomChars,
        ~ In (script_for p baseURL m randomChars) (document_head w'))
  /\ resetStateAndEnvForTestPurposes w' = w'.
Proof.
  intros w'. subst w'. unfold resetStateAndEnvForTestPurposes. cbn.
  assert (Hin : forall element,
            In element
              (List.filter
                 (fun e => negb (String.prefix scriptIDPrefix (script_id e)))
                 (document_head w))
            <-> In element (document_head w)
                /\ String.prefix scriptIDPrefix (script_id element) = false).
  { intros element. rewrite filter_In, negb_true_iff. reflexivity. }
  do 4 (split; [reflexivity|]). split; [exact Hin|]. split.
  - intros p baseURL m randomChars Hs. apply Hin in Hs as [_ Hs].
    cbn [script_id script_for] in Hs.
    unfold getScriptElementID in Hs. now rewrite prefix_append in Hs.
  - unfold with_loadPluginEntry, with_document_head, with_pluginMap, map_clear.
    cbn. f_equal. apply filter_idempotent.
Qed.

(** ** What a load does to the registry *)

(** A load that passes the duplicate check stores the manifest under its
    identifier with the flag false and leaves every other key alone.  The map
    grows by one record when the identifier is new; when the identifier is
    already a key (of a record with another name) that record is replaced and
    the size stays.  One script element is appended and the returned promise
    is pending. *)
Theorem loadDynamicPlugin_stores_pending_record
    (baseURL randomChars : string) (m : ConsolePluginManifestJSON) (w : World) :
  find_existing m (pluginMap w) = None ->
  let p := fst (loadDynamicPlugin baseURL m randomChars w) in
  let w' := snd (loadDynamicPlugin baseURL m randomChars w) in
  map_get (getPluginID m) (pluginMap w')
  = Some {| manifest := m; entryCallbackFired := false |}
  /\ (forall k, k <> getPluginID m ->
        map_get k (pluginMap w') = map_get k (pluginMap w))
  /\ length (pluginMap w')
     = (if map_has (getPluginID m) (pluginMap w)
        then length (pluginMap w) else S (length (pluginMap w)))
  /\ document_head w'
     = (document_head w ++ [script_for p baseURL m randomChars])%list
  /\ promise_state p w' = Some Pending
  /\ p = length (promises w).
Proof.
  intros Hf p w'. subst p w'.
  rewrite (loadDynamicPlugin_accepted _ _ _ _ Hf). cbn [fst snd pluginMap
    document_head]. repeat split.
  - apply map_get_set_eq.
  - intros k Hk. apply map_get_set_ne. congruence.
  - unfold map_has.
    destruct (map_get (getPluginID m) (pluginMap w)) as [d|] eqn:Hg.
    + now apply map_set_present_length with (d := d).
    + rewrite (map_set_absent _ _ _ Hg), length_app. simpl. lia.
  - unfold promise_state. cbn [promises].
    apply (list_lookup_middle (promises w) [] Pending _ eq_refl).
Qed.

(** ** Promises *)

Lemma settle_keeps_settled p q s s' w :
  promise_state p w = Some s -> s <> Pending ->
  promise_state p (settle q s' w) = Some s.
Proof.
  unfold promise_state, settle. intros Hp Hs.
  destruct (promises w !! q) as [[| |]|] eqn:Hq; try assumption.
  cbn [promises with_promises].
  destruct (Nat.eq_dec q p) as [->|Hne]; [congruence|].
  now rewrite list_lookup_insert_ne.
Qed.

Lemma settle_other p q s w :
  p <> q -> promise_state p (settle q s w) = promise_state p w.
Proof.
  unfold promise_state, settle. intros Hne.
  destruct (promises w !! q) as [[| |]|]; try reflexivity.
  cbn [promises with_promises]. apply list_lookup_insert_ne. congruence.
Qed.

Lemma loadDynamicPlugin_keeps_promises baseURL m randomChars w p s :
  promise_state p w = Some s ->
  promise_state p (snd (loadDynamicPlugin baseURL m randomChars w)) = Some s.
Proof.
  unfold promise_state. intros Hp.
  destruct (find_existing m (pluginMap w)) as [existing|] eqn:Hf.
  - rewrite (loadDynamicPlugin_rejected _ _ _ _ _ Hf). cbn.
    now apply lookup_app_l_Some.
  - rewrite (loadDynamicPlugin_accepted _ _ _ _ Hf). cbn.
    now apply lookup_app_l_Some.
Qed.

Lemma settled_promise_run_event allowed ev w p s :
  promise_state p w = Some s -> s <> Pending ->
  promise_state p (run_event (recordingStore allowed) ev w) = Some s.
Proof.
  intros Hp Hs.
  destruct ev as [baseURL m randomChars|script|script event
                 |pluginID entryModule initFailure resolved unresolved|].
  - now apply loadDynamicPlugin_keeps_promises.
  - unfold run_event, script_onload.
    destruct (map_get (onload_pluginID script) (pluginMap w)) as [d|];
      [|assumption].
    destruct (entryCallbackFired d); cbn [snd]; now apply settle_keeps_settled.
  - unfold run_event, script_onerror, perform. cbn [snd].
    now apply settle_keeps_settled.
  - destruct (PluginEntry_frame allowed pluginID entryModule initFailure
                resolved unresolved w) as (_ & Hpr & _).
    unfold promise_state in *. now rewrite Hpr.
  - exact Hp.
Qed.

(** A promise that has been fulfilled or rejected keeps that state through
    everything that can happen afterwards: further loads, load and error
    events of any script (also a second event of its own script), entry
    callbacks and resets. *)
Theorem settled_promise_is_final
    (allowed : list string) (evs : list Event) (p : nat) (s : PromiseState)
    (w : World) :
  promise_state p w = Some s ->
  s <> Pending ->
  promise_state p (run (recordingStore allowed) evs w) = Some s.
Proof.
  intros Hp Hs.
  apply (run_preserves_always (fun w' => promise_state p w' = Some s));
    [|assumption].
  intros ev w' Hp'. now apply settled_promise_run_event.
Qed.

(** The handlers of a script settle only the promise of the call that built
    the script; a load leaves the promises of earlier calls as they are and
    returns a new handle; the entry callback and the reset touch no promise. *)
Theorem promises_are_isolated
    (allowed : list string) (script : ScriptElement) (event : string)
    (p : nat) (w : World) :
  p <> settles script ->
  promise_state p (snd (script_onload script w)) = promise_state p w
  /\ promise_state p (snd (script_onerror script event w)) = promise_state p w
  /\ (forall baseURL m randomChars,
        p < length (promises w) ->
        promise_state p (snd (loadDynamicPlugin baseURL m randomChars w))
        = promise_state p w
        /\ fst (loadDynamicPlugin baseURL m randomChars w) <> p)
  /\ (forall pluginID entryModule initFailure resolved unresolved,
        promises (run_event (recordingStore allowed)
                    (PluginEntry pluginID entryModule initFailure resolved
                       unresolved) w) = promises w)
  /\ promises (resetStateAndEnvForTestPurposes w) = promises w.
Proof.
  intros Hne. split; [|split; [|split; [|split]]].
  - unfold script_onload.
    destruct (map_get (onload_pluginID script) (pluginMap w)) as [d|];
      [|reflexivity].
    destruct (entryCallbackFired d); cbn [snd]; now apply settle_other.
  - unfold script_onerror, perform. cbn [snd]. now apply settle_other.
  - intros baseURL m randomChars Hlt. split.
    + destruct (promise_state p w) as [s|] eqn:Hp.
      * now apply loadDynamicPlugin_keeps_promises.
      * unfold promise_state in Hp. apply lookup_ge_None in Hp. lia.
    + rewrite loadDynamicPlugin_pair. cbn [fst]. lia.
  - intros pluginID entryModule initFailure resolved unresolved.
    apply PluginEntry_frame.
  - reflexivity.
Qed.

(** ** Script elements stay until the reset *)

Lemma scripts_grow_run_event allowed ev w :
  is_reset ev = false ->
  exists added,
    document_head (run_event (recordingStore allowed) ev w)
    = (document_head w ++ added)%list
    /\ Forall (fun s => String.prefix scriptIDPrefix (script_id s) = true) added.
Proof.
  intros Hev.
  destruct ev as [baseURL m randomChars|script|script event
                 |pluginID entryModule initFailure resolved unresolved|].
  - unfold run_event.
    destruct (find_existing m (pluginMap w)) as [existing|] eqn:Hf.
    + rewrite (loadDynamicPlugin_rejected _ _ _ _ _ Hf). exists [].
      cbn. rewrite app_nil_r. auto.
    + rewrite (loadDynamicPlugin_accepted _ _ _ _ Hf).
      exists [script_for (length (promises w)) baseURL m randomChars].
      cbn [snd document_head]. split; [reflexivity|].
      repeat constructor.
  - exists []. unfold run_event.
    rewrite (proj1 (proj2 (script_onload_frame script w))), app_nil_r. auto.
  - exists []. unfold run_event.
    rewrite (proj1 (proj2 (script_onerror_frame script event w))), app_nil_r.
    auto.
  - exists [].
    rewrite (proj1 (PluginEntry_frame allowed pluginID entryModule initFailure
                      resolved unresolved w)), app_nil_r. auto.
  - discriminate.
Qed.

(** Without a reset nothing is ever taken out of the document: after any
    loads, script events and entry callbacks, failed or not, the document
    holds the elements it held before, in the same order, followed by the
    elements added since, and each added element has an id that the reset's
    selector matches. *)
Theorem scripts_stay_until_reset
    (allowed : list string) (evs : list Event) (w : World) :
  forallb (fun ev => negb (is_reset ev)) evs = true ->
  exists added,
    document_head (run (recordingStore allowed) evs w)
    = (document_head w ++ added)%list
    /\ Forall (fun s => String.prefix scriptIDPrefix (script_id s) = true) added.
Proof.
  intros Hok.
  apply (run_preserves
           (fun w' =>
              exists added,
                document_head w' = (document_head w ++ added)%list
                /\ Forall (fun s => String.prefix scriptIDPrefix (script_id s)
                                    = true) added)
           (fun ev => negb (is_reset ev))); [|assumption|].
  - intros ev w' Hev (added & Hdoc & Hall).
    apply negb_true_iff in Hev.
    destruct (scripts_grow_run_event allowed ev w' Hev) as (more & Hdoc' & Hmore).
    exists (added ++ more)%list. split.
    + now rewrite Hdoc', Hdoc, <- app_assoc.
    + apply Forall_app. auto.
  - exists []. rewrite app_nil_r. auto.
Qed.

(** ** The flag of a record stays set *)

Lemma holds_fired_record_run_event allowed m ev w :
  keeps_record_of m ev = true ->
  holds_record_of m (pluginMap w) ->
  holds_fired_record_of m (pluginMap w) ->
  holds_fired_record_of m (pluginMap (run_event (recordingStore allowed) ev w)).
Proof.
  unfold holds_fired_record_of. intros Hk Hh Hfired.
  destruct ev as [baseURL m' randomChars|script|script event
                 |pluginID entryModule initFailure resolved unresolved|].
  - unfold run_event.
    destruct (find_existing m' (pluginMap w)) as [existing|] eqn:Hf.
    + now rewrite (loadDynamicPlugin_rejected _ _ _ _ _ Hf).
    + rewrite (loadDynamicPlugin_accepted _ _ _ _ Hf). cbn [snd pluginMap].
      assert (Hname : name m' <> name m).
      { intros Hn. destruct (holds_record_find m m' _ Hh Hn) as [d [Hf' _]].
        congruence. }
      simpl in Hk. apply orb_true_iff in Hk as [Hk|Hk];
        [|apply String.eqb_eq in Hk; contradiction].
      apply negb_true_iff, String.eqb_neq in Hk.
      now rewrite map_get_set_ne.
  - unfold run_event. now rewrite (proj1 (script_onload_frame script w)).
  - unfold run_event. now rewrite (proj1 (script_onerror_frame script event w)).
  - destruct (PluginEntry_frame allowed pluginID entryModule initFailure
                resolved unresolved w) as (_ & _ & [->|(d & Hg & Hd & ->)]);
      [assumption|].
    destruct (String.eqb_spec pluginID (getPluginID m)) as [->|Hne].
    + rewrite Hfired in Hg. injection Hg as <-. discriminate.
    + now rewrite map_get_set_ne.
  - discriminate.
Qed.

(** Once the callback of a plugin has fired, the flag of its record stays
    true through all later events short of a reset (and of a load whose
    identifier collides with it under another name); so whenever the load
    event of its script arrives while the promise is pending, the promise is
    fulfilled with the plugin identifier. *)
Theorem fired_flag_stays_until_reset
    (allowed : list string) (m : ConsolePluginManifestJSON)
    (evs : list Event) (p : nat) (w : World) :
  holds_record_of m (pluginMap w) ->
  holds_fired_record_of m (pluginMap w) ->
  forallb (keeps_record_of m) evs = true ->
  let w' := run (recordingStore allowed) evs w in
  map_get (getPluginID m) (pluginMap w')
  = Some {| manifest := m; entryCallbackFired := true |}
  /\ (forall baseURL randomChars,
        promise_state p w' = Some Pending ->
        script_onload (script_for p baseURL m randomChars) w'
        = (Normal tt, settle p (Fulfilled (getPluginID m)) w')
        /\ promise_state p (settle p (Fulfilled (getPluginID m)) w')
           = Some (Fulfilled (getPluginID m))).
Proof.
  intros Hh Hfired Hquiet w'.
  assert (Hinv : holds_record_of m (pluginMap w')
                 /\ holds_fired_record_of m (pluginMap w')).
  { subst w'.
    apply (run_preserves
             (fun w0 => holds_record_of m (pluginMap w0)
                        /\ holds_fired_record_of m (pluginMap w0))
             (keeps_record_of m)); [|assumption|auto].
    intros ev w0 Hev [Hh0 Hf0]. split.
    - now apply holds_record_run_event.
    - now apply holds_fired_record_run_event. }
  destruct Hinv as [_ Hfired']. split; [exact Hfired'|].
  intros baseURL randomChars Hp. split.
  - unfold script_onload. cbn [onload_pluginID settles script_for].
    unfold holds_fired_record_of in Hfired'. now rewrite Hfired'.
  - now apply promise_state_settle_pending.
Qed.

(** ** Exceptions of the collaborators *)

(** Only the shared-module initialiser is guarded by [try]: when it returns
    and the code reference resolver throws, the entry callback throws the
    same error to its caller, whatever the store is, so the store is not
    called; and when the resolver returns, the outcome of the callback is the
    outcome of [addDynamicPlugin] on the identifier, the stored manifest and
    the resolved extensions, an exception included.  The resolver is given
    the extensions of the stored manifest. *)
Theorem entry_callback_guards_only_the_initialiser
    (store : PluginStore) (init : InitSharedPluginModules)
    (resolver : ResolveEncodedCodeRefs) (pluginID : string)
    (entryModule : RemoteEntryModule) (d : ConsolePluginData) (w w2 : World) :
  map_get pluginID (pluginMap w) = Some d ->
  entryCallbackFired d = false ->
  init entryModule (mark_entryCallbackFired pluginID d w) = (Normal tt, w2) ->
  let resolving :=
    resolver (extensions (manifest d)) entryModule pluginID
      (console_error ("Code reference resolution failed for plugin " ++ pluginID)
         None) w2 in
  (forall error w3,
     resolving = (Throw error, w3) ->
     forall store',
       getPluginEntryCallback store' init resolver pluginID entryModule w
       = (Throw error, w3))
  /\ (forall resolvedExtensions w3,
        resolving = (Normal resolvedExtensions, w3) ->
        getPluginEntryCallback store init resolver pluginID entryModule w
        = addDynamicPlugin store pluginID (manifest d) resolvedExtensions w3).
Proof.
  intros Hg Hfired Hinit resolving. split.
  - intros error w3 Hres store'.
    rewrite (entry_callback_first _ _ _ _ _ _ d Hg Hfired).
    unfold entry_after_flag. rewrite Hinit. fold resolving. now rewrite Hres.
  - intros resolvedExtensions w3 Hres.
    rewrite (entry_callback_first _ _ _ _ _ _ d Hg Hfired).
    unfold entry_after_flag. rewrite Hinit. fold resolving. now rewrite Hres.
Qed.

(** [getAllowedDynamicPluginNames] is called inside the [try] around the
    dependency resolution: when it throws, the activation reports the error
    as a failure to resolve the dependencies of the plugin and ends, without
    calling [resolvePluginDependencies] and without injecting a script. *)
Theorem allow_list_failure_ends_the_activation
    (pluginName : string) (store : PluginStore)
    (onError : string -> ErrorValue -> Sync unit)
    (m : ConsolePluginManifestJSON) (dependencies : Completion unit)
    (randomChars : string) (evs : list Event) (error : ErrorValue)
    (w w' : World) :
  getAllowedDynamicPluginNames store
    (emit (FetchPluginManifest (plugin_manifest_url pluginName)) w)
  = (Throw error, w') ->
  loadAndEnablePlugin pluginName store onError
    (mkResponses (Normal m) dependencies randomChars evs) w
  = finish (onError ("Failed to resolve dependencies of plugin " ++ pluginName)
              error w').
Proof.
  intros Hallowed.
  unfold loadAndEnablePlugin, loadAndEnablePlugin_begin,
    loadAndEnablePlugin_manifest.
  cbn [fetched_manifest]. rewrite Hallowed. unfold finish.
  destruct (onError ("Failed to resolve dependencies of plugin " ++ pluginName)
              error w') as [[[]|e] w'']; reflexivity.
Qed.

(** Ends a branch that finishes with a call known to return normally. *)
Ltac finish_with Hreturns :=
  match goal with
  | |- context [finish ?c] =>
      let Hr := fresh "Hr" in
      assert (Hr : fst c = Normal tt) by apply Hreturns;
      destruct c as [[[]|?] ?]; cbn [fst] in Hr; [|discriminate Hr];
      cbn [finish fst snd]
  end.

(** The promise returned by [loadAndEnablePlugin] is never rejected as long as
    the reporter and [setDynamicPluginEnabled] do not throw: whatever the
    fetch, the store's allow-list, the dependency resolution and the script do,
    the function either returns or is still waiting for a script promise that
    is not settled. *)
Theorem loadAndEnablePlugin_never_rejects
    (pluginName : string) (store : PluginStore)
    (onError : string -> ErrorValue -> Sync unit) (env : Responses) (w : World) :
  (forall message cause w', fst (onError message cause w') = Normal tt) ->
  (forall pluginID enabled w',
     fst (setDynamicPluginEnabled store pluginID enabled w') = Normal tt) ->
  let result := loadAndEnablePlugin pluginName store onError env w in
  fst result = Returned
  \/ exists m p,
       fst result = AwaitScript m p
       /\ fetched_manifest env = Normal m
       /\ forall s, promise_state p (snd result) = Some s -> s = Pending.
Proof.
  intros HonError Henable result. subst result.
  unfold loadAndEnablePlugin, loadAndEnablePlugin_begin,
    loadAndEnablePlugin_manifest.
  destruct (fetched_manifest env) as [m|cause];
    [|finish_with HonError; now left].
  destruct (getAllowedDynamicPluginNames store
              (emit (FetchPluginManifest (plugin_manifest_url pluginName)) w))
    as [[allowed|cause] w1]; [|finish_with HonError; now left].
  unfold loadAndEnablePlugin_dependencies.
  destruct (resolved_dependencies env) as [[]|cause];
    [|finish_with HonError; now left].
  rewrite loadDynamicPlugin_pair. cbv beta iota.
  unfold loadAndEnablePlugin_script.
  match goal with
  | |- context [promise_state ?p ?w0] =>
      destruct (promise_state p w0) as [[|v|reason]|] eqn:Hp
  end.
  - right. cbn [fst snd]. do 2 eexists.
    split; [reflexivity | split; [reflexivity|]]. intros s Hs. congruence.
  - finish_with Henable. now left.
  - finish_with HonError. now left.
  - right. cbn [fst snd]. do 2 eexists.
    split; [reflexivity | split; [reflexivity|]]. intros s Hs. congruence.
Qed.

(** ** Complete activations *)

Lemma run_until_settled_pending store p ev rest w :
  promise_state p w = Some Pending ->
  run_until_settled store p (ev :: rest) w
  = run_until_settled store p rest (run_event store ev w).
Proof. intros Hp. cbn [run_until_settled]. now rewrite Hp. Qed.

(** The world in which the pipeline waits for the script. *)
Lemma injection_world baseURL m randomChars es w :
  find_existing m (pluginMap w) = None ->
  let w3 := snd (loadDynamicPlugin baseURL m randomChars (emit_many es w)) in
  promise_state (length (promises w)) w3 = Some Pending
  /\ map_get (getPluginID m) (pluginMap w3)
     = Some {| manifest := m; entryCallbackFired := false |}
  /\ effects w3
     = (effects w ++ es
          ++ [ConsoleInfo ("Loading entry script for plugin " ++ getPluginID m)])%list
  /\ document_head w3
     = (document_head w
          ++ [script_for (length (promises w)) baseURL m randomChars])%list.
Proof.
  intros Hf w3. subst w3.
  rewrite (loadDynamicPlugin_accepted baseURL m randomChars (emit_many es w) Hf).
  cbn [snd pluginMap effects document_head emit_many promises]. repeat split.
  - unfold promise_state. cbn [promises].
    apply (list_lookup_middle (promises w) [] Pending _ eq_refl).
  - apply map_get_set_eq.
  - now rewrite <- app_assoc.
Qed.


(** An activation whose script fires its load event although the bundle never
    called the entry callback: the function reports the loaded-without-callback
    error through [onError] and returns; nothing is added to the store or
    enabled, and the record and the script element are left in place, so the
    same plugin name cannot be loaded again before a reset. *)
Theorem activation_reports_missing_callback
    (allowed : list string) (pluginName randomChars : string)
    (m : ConsolePluginManifestJSON) (w : World) :
  find_existing m (pluginMap w) = None ->
  let url := plugin_manifest_url pluginName in
  let p := length (promises w) in
  let pluginID := getPluginID m in
  let env :=
    mkResponses (Normal m) (Normal tt) randomChars
      [ScriptLoaded (script_for p url m randomChars)] in
  let result :=
    loadAndEnablePlugin pluginName (recordingStore allowed) recordingOnError
      env w in
  fst result = Returned
  /\ effects (snd result)
     = (effects w
          ++ [FetchPluginManifest url; GetAllowedDynamicPluginNames;
              ResolvePluginDependencies m
                (semver_valid (releaseVersion SERVER_FLAGS)) allowed;
              ConsoleInfo ("Loading entry script for plugin " ++ pluginID);
              OnError ("Failed to load entry script of plugin " ++ pluginName)
                (Error ("Entry script for plugin " ++ pluginID
                          ++ " loaded without callback"))])%list
  /\ map_get pluginID (pluginMap (snd result))
     = Some {| manifest := m; entryCallbackFired := false |}
  /\ document_head (snd result)
     = (document_head w ++ [script_for p url m randomChars])%list.
Proof.
  intros Hf url p pluginID env result. subst result env.
  rewrite loadAndEnablePlugin_reaches_injection. fold url p.
  destruct (injection_world url m randomChars
              [FetchPluginManifest url; GetAllowedDynamicPluginNames;
               ResolvePluginDependencies m
                 (semver_valid (releaseVersion SERVER_FLAGS)) allowed] w Hf)
    as (Hp3 & Hg3 & He3 & Hd3).
  fold p pluginID in Hp3, Hg3, He3, Hd3.
  set (w3 := snd (loadDynamicPlugin url m randomChars _)) in *.
  rewrite (run_until_settled_pending _ _ _ _ _ Hp3).
  cbn [run_until_settled run_event]. unfold script_onload.
  cbn [onload_pluginID settles script_for]. fold pluginID. rewrite Hg3.
  cbn [entryCallbackFired snd].
  set (reason := Rejected (Error ("Entry script for plugin " ++ pluginID
                                    ++ " loaded without callback"))).
  unfold loadAndEnablePlugin_script.
  rewrite (promise_state_settle_pending p reason w3 Hp3). subst reason.
  cbn [recordingOnError perform finish fst snd].
  match goal with
  | |- context [settle p ?s w3] =>
      destruct (settle_frame p s w3) as (Hpm & Hdoc & _ & Heff)
  end.
  repeat split.
  - cbn [effects emit]. rewrite Heff, He3. now rewrite <- !app_assoc.
  - cbn [pluginMap emit]. now rewrite Hpm.
  - cbn [document_head emit]. now rewrite Hdoc.
Qed.

(** An activation whose script fires its error event: [onError] gets the error
    that names the address of the script, cache-busting token included, with
    the DOM event as its cause; the function returns; nothing is enabled and
    the record stays in the map with its flag false. *)
Theorem activation_reports_script_error
    (allowed : list string) (pluginName randomChars event : string)
    (m : ConsolePluginManifestJSON) (w : World) :
  find_existing m (pluginMap w) = None ->
  let url := plugin_manifest_url pluginName in
  let p := length (promises w) in
  let pluginID := getPluginID m in
  let env :=
    mkResponses (Normal m) (Normal tt) randomChars
      [ScriptFailed (script_for p url m randomChars) event] in
  let result :=
    loadAndEnablePlugin pluginName (recordingStore allowed) recordingOnError
      env w in
  fst result = Returned
  /\ effects (snd result)
     = (effects w
          ++ [FetchPluginManifest url; GetAllowedDynamicPluginNames;
              ResolvePluginDependencies m
                (semver_valid (releaseVersion SERVER_FLAGS)) allowed;
              ConsoleInfo ("Loading entry script for plugin " ++ pluginID);
              OnError ("Failed to load entry script of plugin " ++ pluginName)
                (ErrorWithCause
                   ("Error while loading plugin entry script from "
                      ++ resolveURL url remoteEntryFile
                           (set_search ("?cacheBuster=" ++ randomChars)))
                   event)])%list
  /\ map_get pluginID (pluginMap (snd result))
     = Some {| manifest := m; entryCallbackFired := false |}.
Proof.
  intros Hf url p pluginID env result. subst result env.
  rewrite loadAndEnablePlugin_reaches_injection. fold url p.
  destruct (injection_world url m randomChars
              [FetchPluginManifest url; GetAllowedDynamicPluginNames;
               ResolvePluginDependencies m
                 (semver_valid (releaseVersion SERVER_FLAGS)) allowed] w Hf)
    as (Hp3 & Hg3 & He3 & _).
  fold p pluginID in Hp3, Hg3, He3.
  set (w3 := snd (loadDynamicPlugin url m randomChars _)) in *.
  rewrite (run_until_settled_pending _ _ _ _ _ Hp3).
  cbn [run_until_settled run_event]. unfold script_onerror, perform.
  cbn [settles script_src script_for snd].
  unfold loadAndEnablePlugin_script.
  match goal with
  | |- context [settle p ?s w3] =>
      rewrite (promise_state_settle_pending p s w3 Hp3);
      destruct (settle_frame p s w3) as (Hpm & _ & _ & Heff)
  end.
  cbn [recordingOnError perform finish fst snd].
  repeat split.
  - cbn [effects emit]. rewrite Heff, He3. now rewrite <- !app_assoc.
  - cbn [pluginMap emit]. now rewrite Hpm.
Qed.

End LoaderInvariantFacts.

Section StoreAdditions.
Context `{Imports}.

Lemma store_additions_emit_many pluginID es w :
  store_additions pluginID (emit_many es w)
  = (store_additions pluginID w ++ List.filter (added_to_store pluginID) es)%list.
Proof. unfold store_additions, emit_many; simpl. apply List.filter_app. Qed.

Lemma store_additions_emit pluginID e w :
  store_additions pluginID (emit e w)
  = (store_additions pluginID w ++ List.filter (added_to_store pluginID) [e])%list.
Proof. apply (store_additions_emit_many pluginID [e] w). Qed.

Lemma store_additions_repeat_ConsoleError pluginID message detail n :
  List.filter (added_to_store pluginID) (repeat (ConsoleError message detail) n)
  = [].
Proof. induction n; simpl; auto. Qed.

Lemma store_additions_run_event allowed m ev w :
  holds_fired_record_of m (pluginMap w) ->
  store_additions (getPluginID m) (run_event (recordingStore allowed) ev w)
  = store_additions (getPluginID m) w.
Proof.
  unfold holds_fired_record_of. intros Hfired.
  destruct ev as [baseURL m' randomChars|script|script event
                 |pluginID entryModule initFailure resolved unresolved|].
  - unfold run_event.
    destruct (find_existing m' (pluginMap w)) as [existing|] eqn:Hf.
    + now rewrite (loadDynamicPlugin_rejected _ _ _ _ _ Hf).
    + rewrite (loadDynamicPlugin_accepted _ _ _ _ Hf).
      unfold store_additions. cbn [snd effects].
      rewrite List.filter_app. simpl. apply app_nil_r.
  - unfold run_event, store_additions.
    now rewrite (proj2 (proj2 (script_onload_frame script w))).
  - unfold run_event, store_additions.
    now rewrite (proj2 (proj2 (script_onerror_frame script event w))).
  - rewrite run_event_PluginEntry.
    destruct (map_get pluginID (pluginMap w)) as [d|] eqn:Hg;
      [|rewrite store_additions_emit; apply app_nil_r].
    destruct (entryCallbackFired d) eqn:Hd;
      [rewrite store_additions_emit; apply app_nil_r|].
    assert (Hne : pluginID <> getPluginID m).
    { intros ->. rewrite Hfired in Hg. injection Hg as <-. discriminate. }
    destruct initFailure.
    + rewrite store_additions_emit. simpl. apply app_nil_r.
    + rewrite store_additions_emit, store_additions_emit_many,
        store_additions_repeat_ConsoleError. cbn [List.filter added_to_store].
      apply String.eqb_neq in Hne. rewrite Hne.
      unfold store_additions. cbn [effects mark_entryCallbackFired
        with_pluginMap]. now rewrite !app_nil_r.
  - reflexivity.
Qed.

(** A plugin is not added to the store twice: once the callback of a plugin
    has fired, no later event short of a reset (or of a load whose identifier
    collides with it under another name) makes the loader call
    [addDynamicPlugin] with its identifier again, whatever callbacks plugin
    bundles make. *)
Theorem plugin_is_added_at_most_once
    (allowed : list string) (m : ConsolePluginManifestJSON)
    (evs : list Event) (w : World) :
  holds_record_of m (pluginMap w) ->
  holds_fired_record_of m (pluginMap w) ->
  forallb (keeps_record_of m) evs = true ->
  store_additions (getPluginID m) (run (recordingStore allowed) evs w)
  = store_additions (getPluginID m) w.
Proof.
  intros Hh Hfired Hquiet.
  assert (Hinv : (holds_record_of m (pluginMap (run (recordingStore allowed) evs w))
                  /\ holds_fired_record_of m
                       (pluginMap (run (recordingStore allowed) evs w)))
                 /\ store_additions (getPluginID m)
                      (run (recordingStore allowed) evs w)
                    = store_additions (getPluginID m) w).
  { apply (run_preserves
             (fun w0 => (holds_record_of m (pluginMap w0)
                         /\ holds_fired_record_of m (pluginMap w0))
                        /\ store_additions (getPluginID m) w0
                           = store_additions (getPluginID m) w)
             (keeps_record_of m)); [|assumption|auto].
    intros ev w0 Hev [[Hh0 Hf0] Hs0]. split; [split|].
    - now apply holds_record_run_event.
    - now apply holds_fired_record_run_event.
    - now rewrite store_additions_run_event. }
  apply Hinv.
Qed.

End StoreAdditions.

(** * The further properties at concrete inputs *)

Lemma registry_has_one_record_per_name_witness :
  let pm :=
    pluginMap
      (@run reference_imports sample_store
         [CallLoadDynamicPlugin "/api/plugins/foo/" foo_1 "abcdef";
          CallLoadDynamicPlugin "/api/plugins/bar/" bar_1 "qrstuv";
          PluginEntry "foo@1.0.0" sample_module None [sample_extension] 0;
          CallLoadDynamicPlugin "/api/plugins/foo/" foo_2 "ghijkl"]
         initial_world) in
  List.map fst pm = ["foo@1.0.0"; "bar@1.0.0"]
  /\ forall k d, map_get k pm = Some d
                 -> k = @getPluginID reference_imports (manifest d).
Proof.
  intros pm. split; [reflexivity|].
  exact (proj2 (proj2
           (@registry_has_one_record_per_name reference_imports ["foo"; "bar"]
              [CallLoadDynamicPlugin "/api/plugins/foo/" foo_1 "abcdef";
               CallLoadDynamicPlugin "/api/plugins/bar/" bar_1 "qrstuv";
               PluginEntry "foo@1.0.0" sample_module None [sample_extension] 0;
               CallLoadDynamicPlugin "/api/plugins/foo/" foo_2 "ghijkl"]))).
Defined.

Lemma every_record_has_its_script_witness :
  let w :=
    @run reference_imports sample_store
      [CallLoadDynamicPlugin "/api/plugins/foo/" foo_1 "abcdef";
       CallLoadDynamicPlugin "/api/plugins/bar/" bar_1 "qrstuv";
       ScriptFailed foo_script "error"] initial_world in
  exists script,
    In script (document_head w)
    /\ script_id script = "console-plugin-bar"
    /\ onload_pluginID script = "bar@1.0.0".
Proof.
  intros w.
  apply (@every_record_has_its_script reference_imports ["foo"; "bar"]
           [CallLoadDynamicPlugin "/api/plugins/foo/" foo_1 "abcdef";
            CallLoadDynamicPlugin "/api/plugins/bar/" bar_1 "qrstuv";
            ScriptFailed foo_script "error"]
           "bar@1.0.0" {| manifest := bar_1; entryCallbackFired := false |}).
  right. left. reflexivity.
Defined.

Lemma script_element_id_follows_name_witness :
  getScriptElementID foo_1 = getScriptElementID foo_2
  /\ getScriptElementID foo_1 <> getScriptElementID bar_1.
Proof.
  split.
  - apply (proj1 (@script_element_id_follows_name reference_imports
                    foo_1 foo_2)). reflexivity.
  - intros Heq.
    apply (proj1 (@script_element_id_follows_name reference_imports
                    foo_1 bar_1)) in Heq. discriminate.
Defined.

Lemma reset_clears_map_and_scripts_witness :
  pluginMap (resetStateAndEnvForTestPurposes foo_entered) = []
  /\ ~ In foo_script (document_head (resetStateAndEnvForTestPurposes foo_entered))
  /\ promises (resetStateAndEnvForTestPurposes foo_entered) = [Pending].
Proof.
  destruct (@reset_clears_map_and_scripts reference_imports foo_entered)
    as (Hmap & _ & Hpromises & _ & _ & Hscripts & _).
  split; [exact Hmap|]. split; [|exact Hpromises].
  exact (Hscripts 0 "/api/plugins/foo/" foo_1 "abcdef").
Defined.

Lemma loadDynamicPlugin_stores_pending_record_witness :
  map_get "bar@1.0.0"
    (pluginMap (snd (@loadDynamicPlugin reference_imports "/api/plugins/bar/"
                       bar_1 "qrstuv" foo_loading)))
  = Some {| manifest := bar_1; entryCallbackFired := false |}
  /\ length (pluginMap (snd (@loadDynamicPlugin reference_imports
                               "/api/plugins/bar/" bar_1 "qrstuv" foo_loading)))
     = 2.
Proof.
  destruct (@loadDynamicPlugin_stores_pending_record reference_imports
              "/api/plugins/bar/" "qrstuv" bar_1 foo_loading eq_refl)
    as (Hget & _ & Hlen & _).
  split; [exact Hget | exact Hlen].
Defined.

Lemma settled_promise_is_final_witness :
  let failed :=
    @run reference_imports sample_store [ScriptFailed foo_script "error"]
      foo_loading in
  promise_state 0
    (@run reference_imports sample_store
       [ScriptLoaded foo_script;
        PluginEntry "foo@1.0.0" sample_module None [sample_extension] 0;
        ScriptLoaded foo_script;
        ResetStateAndEnv] failed)
  = Some (Rejected
            (ErrorWithCause
               "Error while loading plugin entry script from /api/plugins/foo/plugin-entry.js?cacheBuster=abcdef"
               "error")).
Proof.
  intros failed.
  apply (@settled_promise_is_final reference_imports ["foo"; "bar"]);
    [reflexivity | discriminate].
Defined.

Lemma promises_are_isolated_witness :
  let w :=
    snd (@loadDynamicPlugin reference_imports "/api/plugins/bar/" bar_1
           "qrstuv" foo_loading) in
  promise_state 1 (snd (script_onload foo_script w)) = Some Pending
  /\ promise_state 1 (snd (script_onerror foo_script "error" w)) = Some Pending.
Proof.
  intros w.
  destruct (@promises_are_isolated reference_imports ["foo"; "bar"] foo_script
              "error" 1 w ltac:(discriminate)) as (Hload & Herror & _).
  split; [rewrite Hload | rewrite Herror]; reflexivity.
Defined.

Lemma scripts_stay_until_reset_witness :
  exists added,
    document_head
      (@run reference_imports sample_store
         [ScriptFailed foo_script "error";
          CallLoadDynamicPlugin "/api/plugins/bar/" bar_1 "qrstuv"] foo_loading)
    = (document_head foo_loading ++ added)%list
    /\ Forall (fun s => String.prefix scriptIDPrefix (script_id s) = true) added.
Proof.
  apply (@scripts_stay_until_reset reference_imports ["foo"; "bar"]).
  reflexivity.
Defined.

Lemma fired_flag_stays_until_reset_witness :
  map_get "foo@1.0.0"
    (pluginMap
       (@run reference_imports sample_store
          [PluginEntry "foo@1.0.0" sample_module None [] 0;
           CallLoadDynamicPlugin "/api/plugins/foo/" foo_2 "ghijkl";
           CallLoadDynamicPlugin "/api/plugins/bar/" bar_1 "qrstuv"]
          foo_entered))
  = Some {| manifest := foo_1; entryCallbackFired := true |}.
Proof.
  assert (Hholds : @holds_record_of reference_imports foo_1 (pluginMap foo_entered)).
  { split.
    - eexists. split; reflexivity.
    - intros k d [E|[]] _. now inversion E. }
  exact (proj1 (@fired_flag_stays_until_reset reference_imports ["foo"; "bar"]
                  foo_1
                  [PluginEntry "foo@1.0.0" sample_module None [] 0;
                   CallLoadDynamicPlugin "/api/plugins/foo/" foo_2 "ghijkl";
                   CallLoadDynamicPlugin "/api/plugins/bar/" bar_1 "qrstuv"]
                  0 foo_entered Hholds eq_refl eq_refl)).
Defined.

Lemma entry_callback_guards_only_the_initialiser_witness :
  let failing : ResolveEncodedCodeRefs :=
    fun _ _ _ _ => throw (Error "bad code reference") in
  getPluginEntryCallback sample_store (init_with_outcome None) failing
    "foo@1.0.0" sample_module foo_loading
  = (Throw (Error "bad code reference"),
     mark_entryCallbackFired "foo@1.0.0"
       {| manifest := foo_1; entryCallbackFired := false |} foo_loading).
Proof.
  intros failing.
  apply (proj1 (entry_callback_guards_only_the_initialiser sample_store
                  (init_with_outcome None) failing "foo@1.0.0" sample_module
                  {| manifest := foo_1; entryCallbackFired := false |}
                  foo_loading
                  (mark_entryCallbackFired "foo@1.0.0"
                     {| manifest := foo_1; entryCallbackFired := false |}
                     foo_loading)
                  eq_refl eq_refl eq_refl)).
  reflexivity.
Defined.

Lemma allow_list_failure_ends_the_activation_witness :
  @loadAndEnablePlugin reference_imports "foo"
    (storeWithoutAllowList (Error "store is gone")) recordingOnError
    (mkResponses (Normal foo_1) (Normal tt) "abcdef" []) initial_world
  = (Returned,
     emit_many
       [FetchPluginManifest "/api/plugins/foo/";
        OnError "Failed to resolve dependencies of plugin foo"
          (Error "store is gone")] initial_world).
Proof.
  rewrite (@allow_list_failure_ends_the_activation reference_imports "foo"
             (storeWithoutAllowList (Error "store is gone")) recordingOnError
             foo_1 (Normal tt) "abcdef" [] (Error "store is gone")
             initial_world
             (emit (FetchPluginManifest "/api/plugins/foo/") initial_world)
             eq_refl).
  reflexivity.
Defined.

Lemma loadAndEnablePlugin_never_rejects_witness :
  fst (@loadAndEnablePlugin reference_imports "foo" sample_store
         recordingOnError
         (mkResponses (Normal foo_1) (Throw (Error "incompatible")) "abcdef" [])
         foo_loading)
  = Returned.
Proof.
  destruct (@loadAndEnablePlugin_never_rejects reference_imports "foo"
              sample_store recordingOnError
              (mkResponses (Normal foo_1) (Throw (Error "incompatible"))
                 "abcdef" [])
              foo_loading
              (fun _ _ _ => eq_refl) (fun _ _ _ => eq_refl))
    as [Hreturned|(m & p & Hwaiting & _)].
  - exact Hreturned.
  - discriminate Hwaiting.
Defined.


Lemma activation_reports_missing_callback_witness :
  let result :=
    @loadAndEnablePlugin reference_imports "foo" sample_store recordingOnError
      (mkResponses (Normal foo_1) (Normal tt) "abcdef" [ScriptLoaded foo_script])
      initial_world in
  fst result = Returned
  /\ map_get "foo@1.0.0" (pluginMap (snd result))
     = Some {| manifest := foo_1; entryCallbackFired := false |}.
Proof.
  intros result.
  destruct (@activation_reports_missing_callback reference_imports
              ["foo"; "bar"] "foo" "abcdef" foo_1 initial_world eq_refl)
    as (Hreturned & _ & Hrecord & _).
  split; [exact Hreturned | exact Hrecord].
Defined.

Lemma activation_reports_script_error_witness :
  let result :=
    @loadAndEnablePlugin reference_imports "foo" sample_store recordingOnError
      (mkResponses (Normal foo_1) (Normal tt) "abcdef"
         [ScriptFailed foo_script "error"]) initial_world in
  effects (snd result)
  = [FetchPluginManifest "/api/plugins/foo/";
     GetAllowedDynamicPluginNames;
     ResolvePluginDependencies foo_1 (Some "4.14.0") ["foo"; "bar"];
     ConsoleInfo "Loading entry script for plugin foo@1.0.0";
     OnError "Failed to load entry script of plugin foo"
       (ErrorWithCause
          "Error while loading plugin entry script from /api/plugins/foo/plugin-entry.js?cacheBuster=abcdef"
          "error")].
Proof.
  intros result.
  exact (proj1 (proj2
           (@activation_reports_script_error reference_imports ["foo"; "bar"]
              "foo" "abcdef" "error" foo_1 initial_world eq_refl))).
Defined.

Lemma plugin_is_added_at_most_once_witness :
  store_additions "foo@1.0.0"
    (@run reference_imports sample_store
       [PluginEntry "foo@1.0.0" sample_module None [sample_extension] 0;
        CallLoadDynamicPlugin "/api/plugins/bar/" bar_1 "qrstuv";
        PluginEntry "bar@1.0.0" sample_module None [] 0;
        PluginEntry "foo@1.0.0" sample_module None [] 1]
       foo_entered)
  = [AddDynamicPlugin "foo@1.0.0" foo_1 [sample_extension]].
Proof.
  assert (Hholds : @holds_record_of reference_imports foo_1 (pluginMap foo_entered)).
  { split.
    - eexists. split; reflexivity.
    - intros k d [E|[]] _. now inversion E. }
  exact (eq_trans
           (@plugin_is_added_at_most_once reference_imports ["foo"; "bar"] foo_1
              [PluginEntry "foo@1.0.0" sample_module None [sample_extension] 0;
               CallLoadDynamicPlugin "/api/plugins/bar/" bar_1 "qrstuv";
               PluginEntry "bar@1.0.0" sample_module None [] 0;
               PluginEntry "foo@1.0.0" sample_module None [] 1]
              foo_entered Hholds eq_refl eq_refl)
           eq_refl).
Defined.
